(** * minimal-todo: a shallow embedding of [main.c] and its verified properties

    The program keeps one flat array of fixed-size records, a selection index
    and three filter criteria in global variables.  The embedding below keeps
    that shape: buffers are lists of bytes of the declared length, C [int]s
    and [time_t]s are integers in [Z] with their wrap-around written out, the
    globals are one [State] record that every operation threads through, and
    an operation that would read or write outside an array has no defined
    behaviour in C and returns [None] here.

    Layout assumptions (x86-64 Linux, the platform of the GNU extension
    [strcasestr] the program calls): [int] is 32 bits, [time_t] is 64 bits,
    both little endian, and [sizeof(Todo)] is 272. *)

From Stdlib Require Import ZArith List Lia Bool Strings.String Sorting.Sorted.
From coqutil Require Import Byte Word.LittleEndianList.
From stdpp Require Import base option list list_numbers.

Local Open Scope Z_scope.

(** ** Machine integers *)

Module CInt.

(** Two's-complement reading of the low [w] bits of [z]. *)
Definition swrap (w : Z) (z : Z) : Z :=
  (z + 2 ^ (w - 1)) mod 2 ^ w - 2 ^ (w - 1).

(** [int] *)
Definition sint (z : Z) : Z := swrap 32 z.
(** [time_t], [long] *)
Definition slong (z : Z) : Z := swrap 64 z.

Definition INT_MIN : Z := - 2 ^ 31.
Definition INT_MAX : Z := 2 ^ 31 - 1.
Definition LONG_MIN : Z := - 2 ^ 63.
Definition LONG_MAX : Z := 2 ^ 63 - 1.

Definition is_int (z : Z) : Prop := INT_MIN <= z <= INT_MAX.
Definition is_long (z : Z) : Prop := LONG_MIN <= z <= LONG_MAX.

(** The object representation of an integer: [n] bytes, little endian. *)
Definition to_bytes (n : nat) (z : Z) : list byte := le_split n z.
Definition of_bytes (bs : list byte) : Z :=
  swrap (8 * Z.of_nat (length bs)) (le_combine bs).

End CInt.

(** ** The C library and curses functions the program calls *)

Module LibC.

Definition NUL : byte := Byte.x00.

Definition is_nul (c : byte) : bool := Byte.eqb c NUL.

(** [tolower] in the "C" locale (the program never calls [setlocale]):
    'A'..'Z' are moved to 'a'..'z', every other byte is left alone. *)
Definition tolower (c : byte) : byte :=
  let z := byte.unsigned c in
  if (65 <=? z) && (z <=? 90) then byte.of_Z (z + 32) else c.

(** The string stored in a buffer: the bytes before the first NUL.  On a
    buffer without a NUL the C functions read on behind the array, into
    the next field of the record; that is not modelled, [cstr] stops at
    the end of the buffer, and what is proved of strings is proved of
    buffers that hold a NUL. *)
Fixpoint cstr (buf : list byte) : list byte :=
  match buf with
  | [] => []
  | c :: rest => if is_nul c then [] else c :: cstr rest
  end.

(** [strcasecmp]: walk both strings, compare the lowered bytes, stop at
    the first difference or at the terminator. *)
Fixpoint strcasecmp (p1 p2 : list byte) : Z :=
  let c2 := hd NUL p2 in
  match p1 with
  | [] => byte.unsigned (tolower NUL) - byte.unsigned (tolower c2)
  | c1 :: p1' =>
      let result := byte.unsigned (tolower c1) - byte.unsigned (tolower c2) in
      if result =? 0
      then (if is_nul c1 then 0 else strcasecmp p1' (tl p2))
      else result
  end.

(** Does [needle] occur, ignoring case, right at the start of [s]? *)
Fixpoint match_here (s needle : list byte) {struct needle} : bool :=
  match needle with
  | [] => true
  | n :: needle' =>
      if is_nul n then true
      else match s with
           | [] => false
           | c :: s' =>
               if is_nul c then false
               else Byte.eqb (tolower c) (tolower n) && match_here s' needle'
           end
  end.

(** [strcasestr]: the offset of the first occurrence of [needle] in
    [haystack] ignoring case ([Some off] stands for the pointer
    [haystack + off]), or [None] for the null pointer. *)
Fixpoint strcasestr (haystack needle : list byte) : option nat :=
  if match_here haystack needle then Some 0%nat
  else match haystack with
       | [] => None
       | c :: rest =>
           if is_nul c then None else S <$> strcasestr rest needle
       end.

(** [strncpy(dst, src, n)]: the first [n] bytes of [dst] become the string
    in [src] cut at [n] bytes and padded with NULs up to [n]; the rest of
    [dst] is not touched, so nothing terminates a string of [n] bytes. *)
Definition strncpy (dst src : list byte) (n : nat) : list byte :=
  take n (cstr src ++ replicate n NUL) ++ drop n dst.

(** curses [getstr(buf)]: the typed line is stored at the start of [buf],
    followed by a NUL; [getstr] is not told the size of [buf], so a line
    that does not fit together with its terminator overruns it. *)
Definition getstr (buf line : list byte) : option (list byte) :=
  if (length line <? length buf)%nat
  then Some (line ++ NUL :: drop (S (length line)) buf)
  else None.

(** *** [sscanf] with the format ["%d-%d-%d"] *)

Definition isspace (c : byte) : bool :=
  let z := byte.unsigned c in (z =? 32) || ((9 <=? z) && (z <=? 13)).

Definition isdigit (c : byte) : bool :=
  let z := byte.unsigned c in (48 <=? z) && (z <=? 57).

Fixpoint skip_space (s : list byte) : list byte :=
  match s with
  | c :: rest => if isspace c then skip_space rest else s
  | [] => []
  end.

(** The value of the longest run of decimal digits at the start of [s],
    on top of [acc], and what follows the run. *)
Fixpoint digits (acc : Z) (s : list byte) : Z * list byte :=
  match s with
  | c :: rest =>
      if isdigit c then digits (10 * acc + (byte.unsigned c - 48)) rest
      else (acc, s)
  | [] => (acc, [])
  end.

(** One [%d] conversion: skip white space, take an optional sign and at
    least one digit.  glibc converts with [strtol], which saturates at the
    bounds of [long], and stores the result through the [int *]. *)
Definition scan_d (s : list byte) : option (Z * list byte) :=
  let s1 := skip_space s in
  let '(neg, s2) :=
    match s1 with
    | c :: rest =>
        if Byte.eqb c Byte.x2d then (true, rest)
        else if Byte.eqb c Byte.x2b then (false, rest)
        else (false, s1)
    | [] => (false, [])
    end in
  match s2 with
  | c :: _ =>
      if isdigit c then
        let '(v, rest) := digits 0 s2 in
        let v := if neg then - v else v in
        Some (CInt.sint (Z.max CInt.LONG_MIN (Z.min CInt.LONG_MAX v)), rest)
      else None
  | [] => None
  end.

(** The literal '-' of the format matches exactly one '-' of the input. *)
Definition scan_dash (s : list byte) : option (list byte) :=
  match s with
  | c :: rest => if Byte.eqb c Byte.x2d then Some rest else None
  | [] => None
  end.

(** The values [sscanf(s, "%d-%d-%d", ...)] assigns, in order; their
    number is what [sscanf] returns when it is positive (with no
    conversion at all the return value is 0 or [EOF]). *)
Definition sscanf_d_d_d (s : list byte) : list Z :=
  match scan_d s with
  | None => []
  | Some (a, s) =>
      match scan_dash s ≫= scan_d with
      | None => [a]
      | Some (b, s) =>
          match scan_dash s ≫= scan_d with
          | None => [a; b]
          | Some (c, _) => [a; b; c]
          end
      end
  end.

(** [struct tm], the fields of ISO C. *)
Record tm : Type := mk_tm {
  tm_sec : Z; tm_min : Z; tm_hour : Z;
  tm_mday : Z; tm_mon : Z; tm_year : Z;
  tm_wday : Z; tm_yday : Z; tm_isdst : Z
}.

(** [struct tm tm_date = {0};] *)
Definition tm_zero : tm := mk_tm 0 0 0 0 0 0 0 0 0.

(** Days between 1970-01-01 and the first day of month [mon] (0 = January,
    any integer: months outside 0..11 carry into the year) of the year
    [year] + 1900, in the proleptic Gregorian calendar. *)
Definition days_to_month (year mon : Z) : Z :=
  let y := year + 1900 + mon / 12 in
  let m := mon mod 12 + 1 in
  let y := if m <=? 2 then y - 1 else y in
  let era := y / 400 in
  let yoe := y - era * 400 in
  let mp := (m + 9) mod 12 in
  let doy := (153 * mp + 2) / 5 in
  let doe := yoe * 365 + yoe / 4 - yoe / 100 + doy in
  era * 146097 + doe - 719468.

(** The calendar year (1970 for day 0) of the day [z] days after
    1970-01-01. *)
Definition year_of_days (z : Z) : Z :=
  let z := z + 719468 in
  let era := z / 146097 in
  let doe := z - era * 146097 in
  let yoe := (doe - doe / 1460 + doe / 36524 - doe / 146096) / 365 in
  let doy := doe - (365 * yoe + yoe / 4 - yoe / 100) in
  let mp := (5 * doy + 2) / 153 in
  yoe + era * 400 + (if mp <? 10 then 0 else 1).

(** [mktime] when the local time zone is UTC: the fields are normalised
    (day 45 of a month runs into the next one) and counted in seconds
    since the epoch; the result is -1 when the year of the normalised date
    does not fit the [int] field [tm_year].  Other time zones shift the
    result; the operations below take [mktime] as a parameter and this is
    one instance. *)
Definition mktime_utc (t : tm) : Z :=
  let secs :=
    (days_to_month (tm_year t) (tm_mon t) + (tm_mday t - 1)) * 86400
    + tm_hour t * 3600 + tm_min t * 60 + tm_sec t in
  let year := year_of_days (secs / 86400) - 1900 in
  if (CInt.INT_MIN <=? year) && (year <=? CInt.INT_MAX) then secs else -1.

End LibC.

Import LibC.

(** ** The data model *)

(** [#define MAX_TODOS 100], [#define MAX_LENGTH 128] *)
Definition MAX_TODOS : Z := 100.
Definition MAX_LENGTH : nat := 128.

(** [typedef struct { char text[MAX_LENGTH]; char category[MAX_LENGTH];
    time_t due_date; int done; } Todo;]

    [pad] stands for the four bytes the ABI adds behind [done] so that the
    size of the struct is a multiple of the alignment of [due_date]; no
    statement of the program names them, but [fwrite], [fread] and struct
    assignment move them together with the fields. *)
Record Todo : Type := mk_Todo {
  text : list byte;
  category : list byte;
  due_date : Z;
  done : Z;
  pad : list byte
}.

Definition sizeof_Todo : Z := 272.

Definition set_text (v : list byte) (t : Todo) : Todo :=
  mk_Todo v (category t) (due_date t) (done t) (pad t).
Definition set_category_buf (v : list byte) (t : Todo) : Todo :=
  mk_Todo (text t) v (due_date t) (done t) (pad t).
Definition set_due (v : Z) (t : Todo) : Todo :=
  mk_Todo (text t) (category t) v (done t) (pad t).
Definition set_done (v : Z) (t : Todo) : Todo :=
  mk_Todo (text t) (category t) (due_date t) v (pad t).

(** The globals: [todos], [todo_count], [selected], [filter_category],
    [filter_done] (-1: all, 0: pending, 1: done) and [search_term]. *)
Record State : Type := mk_State {
  todos : list Todo;
  todo_count : Z;
  selected : Z;
  filter_category : list byte;
  filter_done : Z;
  search_term : list byte
}.

Definition with_todos (v : list Todo) (st : State) : State :=
  mk_State v (todo_count st) (selected st) (filter_category st)
           (filter_done st) (search_term st).
Definition with_todo_count (v : Z) (st : State) : State :=
  mk_State (todos st) v (selected st) (filter_category st)
           (filter_done st) (search_term st).
Definition with_selected (v : Z) (st : State) : State :=
  mk_State (todos st) (todo_count st) v (filter_category st)
           (filter_done st) (search_term st).
Definition with_filter_category (v : list byte) (st : State) : State :=
  mk_State (todos st) (todo_count st) (selected st) v
           (filter_done st) (search_term st).
Definition with_filter_done (v : Z) (st : State) : State :=
  mk_State (todos st) (todo_count st) (selected st) (filter_category st)
           v (search_term st).
Definition with_search_term (v : list byte) (st : State) : State :=
  mk_State (todos st) (todo_count st) (selected st) (filter_category st)
           (filter_done st) v.

(** Objects of static storage duration start out as zeros. *)
Definition zero_Todo : Todo :=
  mk_Todo (replicate MAX_LENGTH NUL) (replicate MAX_LENGTH NUL) 0 0
          (replicate 4 NUL).

Definition initial_state : State :=
  mk_State (replicate (Z.to_nat MAX_TODOS) zero_Todo) 0 0
           (replicate MAX_LENGTH NUL) (-1) (replicate MAX_LENGTH NUL).

(** [todos[idx]] as an rvalue and as the target of an assignment.  An index
    outside the array has no defined behaviour. *)
Definition in_array (idx : Z) : bool := (0 <=? idx) && (idx <? MAX_TODOS).

Definition todos_at (st : State) (idx : Z) : option Todo :=
  if in_array idx then todos st !! Z.to_nat idx else None.

Definition todos_put (st : State) (idx : Z) (t : Todo) : option State :=
  if in_array idx && (Z.to_nat idx <? length (todos st))%nat
  then Some (with_todos (<[Z.to_nat idx := t]> (todos st)) st)
  else None.

(** A buffer for one prompt: [char new_todo[MAX_LENGTH];] and its like.  Its
    bytes are indeterminate until [getstr] fills it, and nothing reads behind
    the terminator [getstr] writes. *)
Definition local_buffer : list byte := replicate MAX_LENGTH NUL.

(** ** The filter predicate *)

(** The three tests of [todo_matches_filter] on the record it is given. *)
Definition matches (st : State) (t : Todo) : bool :=
  if negb (filter_done st =? -1) && negb (done t =? filter_done st)
  then false
  else if negb (is_nul (hd NUL (filter_category st)))
          && negb (strcasecmp (category t) (filter_category st) =? 0)
  then false
  else if negb (is_nul (hd NUL (search_term st)))
          && negb (bool_decide (is_Some (strcasestr (text t) (search_term st))))
          && negb (bool_decide (is_Some (strcasestr (category t) (search_term st))))
  then false
  else true.

Definition todo_matches_filter (st : State) (idx : Z) : option bool :=
  matches st <$> todos_at st idx.

(** The records [draw_screen] prints: the indices below [todo_count], in
    order, whose record passes the filter. *)
Fixpoint visible_from (st : State) (n : nat) (i : Z) : list Z :=
  match n with
  | O => []
  | S n' =>
      match todo_matches_filter st i with
      | Some true => i :: visible_from st n' (i + 1)
      | _ => visible_from st n' (i + 1)
      end
  end.

Definition visible (st : State) : list Z :=
  visible_from st (Z.to_nat (todo_count st)) 0.

(** ** The operations on the store *)

(** [add_todo], with [line] the text typed at the prompt. *)
Definition add_todo (line : list byte) (st : State) : option State :=
  new_todo ← getstr local_buffer line;
  if negb (is_nul (hd NUL new_todo)) && (todo_count st <? MAX_TODOS) then
    t ← todos_at st (todo_count st);
    let t := set_text (strncpy (text t) new_todo (MAX_LENGTH - 1)) t in
    let t := set_category_buf (<[0%nat := NUL]> (category t)) t in
    let t := set_due 0 t in
    let t := set_done 0 t in
    st ← todos_put st (todo_count st) t;
    let st := with_todo_count (CInt.sint (todo_count st + 1)) st in
    Some (with_selected (CInt.sint (todo_count st - 1)) st)
  else Some st.

(** The loop of [delete_todo]: [n] rounds of [todos[i] = todos[i + 1]],
    starting at [i]. *)
Fixpoint shift_left (n : nat) (i : Z) (st : State) : option State :=
  match n with
  | O => Some st
  | S n' =>
      t ← todos_at st (i + 1);
      st ← todos_put st i t;
      shift_left n' (i + 1) st
  end.

(** [delete_todo(idx)]: the loop runs for [i = idx .. todo_count - 2]. *)
Definition delete_todo (idx : Z) (st : State) : option State :=
  st ← shift_left (Z.to_nat (todo_count st - 1 - idx)) idx st;
  let st := with_todo_count (CInt.sint (todo_count st - 1)) st in
  Some (if (selected st >=? todo_count st) && (selected st >? 0)
        then with_selected (CInt.sint (selected st - 1)) st
        else st).

(** [toggle_todo(idx)]: [done = !done]. *)
Definition toggle_todo (idx : Z) (st : State) : option State :=
  t ← todos_at st idx;
  todos_put st idx (set_done (if done t =? 0 then 1 else 0) t).

Definition edit_todo (idx : Z) (line : list byte) (st : State) : option State :=
  edit ← getstr local_buffer line;
  if negb (is_nul (hd NUL edit)) then
    t ← todos_at st idx;
    todos_put st idx (set_text (strncpy (text t) edit (MAX_LENGTH - 1)) t)
  else Some st.

Definition set_category (idx : Z) (line : list byte) (st : State) : option State :=
  buf ← getstr local_buffer line;
  t ← todos_at st idx;
  todos_put st idx
    (set_category_buf (strncpy (category t) buf (MAX_LENGTH - 1)) t).

Section DueDate.

(** [mktime] depends on the time zone of the process, which is not part
    of the program; the result is stored in a [time_t]. *)
Variable mktime : tm -> Z.

(** The [struct tm] that [set_due_date] hands to [mktime] after a scan of
    three numbers. *)
Definition tm_of_date (year mon mday : Z) : tm :=
  mk_tm 0 0 0 mday (CInt.sint (mon - 1)) (CInt.sint (year - 1900)) 0 0 0.

Definition set_due_date (idx : Z) (line : list byte) (st : State)
  : option State :=
  date_str ← getstr local_buffer line;
  if is_nul (hd NUL date_str) then
    t ← todos_at st idx;
    todos_put st idx (set_due 0 t)
  else
    match sscanf_d_d_d (cstr date_str) with
    | [year; mon; mday] =>
        t ← todos_at st idx;
        todos_put st idx
          (set_due (CInt.slong (mktime (tm_of_date year mon mday))) t)
    | _ => Some st
    end.

End DueDate.

(** ** The operations on the filter *)

Definition filter_by_category (line : list byte) (st : State) : option State :=
  buf ← getstr (filter_category st) line;
  Some (with_selected 0 (with_filter_category buf st)).

(** [filter_done = (filter_done + 1) % 3 - 1;] with the remainder of C,
    which truncates towards zero. *)
Definition filter_by_status (st : State) : State :=
  with_selected 0
    (with_filter_done
       (CInt.sint (Z.rem (CInt.sint (filter_done st + 1)) 3 - 1)) st).

Definition search_todos (line : list byte) (st : State) : option State :=
  buf ← getstr (search_term st) line;
  Some (with_selected 0 (with_search_term buf st)).

(** [case 'r':] in [main]. *)
Definition reset_filters (st : State) : State :=
  with_search_term (<[0%nat := NUL]> (search_term st))
    (with_filter_done (-1)
       (with_filter_category (<[0%nat := NUL]> (filter_category st)) st)).

(** ** Persistence *)

(** The object representation of a record, field after field. *)
Definition encode_Todo (t : Todo) : list byte :=
  text t ++ category t ++ CInt.to_bytes 8 (due_date t)
  ++ CInt.to_bytes 4 (done t) ++ pad t.

Definition decode_Todo (bs : list byte) : Todo :=
  mk_Todo (take MAX_LENGTH bs)
          (take MAX_LENGTH (drop MAX_LENGTH bs))
          (CInt.of_bytes (take 8 (drop 256 bs)))
          (CInt.of_bytes (take 4 (drop 264 bs)))
          (take 4 (drop 268 bs)).

(** The bytes of an array of records, and the records in [n] * 272 bytes. *)
Definition todos_bytes (l : list Todo) : list byte :=
  concat (map encode_Todo l).

Fixpoint todos_of_bytes (n : nat) (bs : list byte) : list Todo :=
  match n with
  | O => []
  | S n' =>
      decode_Todo (take (Z.to_nat sizeof_Todo) bs)
      :: todos_of_bytes n' (drop (Z.to_nat sizeof_Todo) bs)
  end.

(** The data file: its bytes, or [None] when [fopen] fails. *)
Definition file : Type := option (list byte).

(** The number of bytes a call asks for, [size * nmemb] in [size_t]. *)
Definition request (size nmemb : Z) : Z := (size * nmemb) mod 2 ^ 64.

(** [fwrite(ptr, size, nmemb, file)] from the object [mem]: the bytes that
    reach the file.  Asking for more than the object holds reads behind it. *)
Definition fwrite (mem : list byte) (size nmemb : Z) : option (list byte) :=
  let want := request size nmemb in
  if want <=? Z.of_nat (length mem)
  then Some (take (Z.to_nat want) mem)
  else None.

(** [fread(ptr, size, nmemb, file)] into the object [mem]: glibc stores as
    many of the requested bytes as the stream still has, the bytes of a
    partial element included.  The result is the object and the rest of the
    stream; more bytes than the object holds overrun it. *)
Definition fread (mem : list byte) (size nmemb : Z) (stream : list byte)
  : option (list byte * list byte) :=
  let got := Z.to_nat (Z.min (request size nmemb) (Z.of_nat (length stream))) in
  if (got <=? length mem)%nat
  then Some (take got stream ++ drop got mem, drop got stream)
  else None.

(** [save_todos]: when [fopen] succeeds the file is replaced by the count and
    the first [todo_count] records; when it fails the file stays as it is. *)
Definition save_todos (fopen_ok : bool) (st : State) (old : file)
  : option file :=
  if fopen_ok then
    header ← fwrite (CInt.to_bytes 4 (todo_count st)) 4 1;
    records ← fwrite (todos_bytes (todos st)) sizeof_Todo (todo_count st);
    Some (Some (header ++ records))
  else Some old.

(** [load_todos]: neither result of [fread] is looked at. *)
Definition load_todos (f : file) (st : State) : option State :=
  match f with
  | None => Some st
  | Some data =>
      '(count, rest) ← fread (CInt.to_bytes 4 (todo_count st)) 4 1 data;
      let st := with_todo_count (CInt.of_bytes count) st in
      '(mem, _) ← fread (todos_bytes (todos st)) sizeof_Todo (todo_count st) rest;
      Some (with_todos (todos_of_bytes (length (todos st)) mem) st)
  end.

(** ** The key-dispatch loop *)

(** Key codes: [KEY_DOWN] and [KEY_UP] of curses, and the characters of the
    [case] labels. *)
Definition KEY_DOWN : Z := 258.
Definition KEY_UP : Z := 259.

Definition key_j : Z := 106.
Definition key_k : Z := 107.
Definition key_a : Z := 97.
Definition key_d : Z := 100.
Definition key_space : Z := 32.
Definition key_e : Z := 101.
Definition key_D : Z := 68.
Definition key_c : Z := 99.
Definition key_C : Z := 67.
Definition key_f : Z := 102.
Definition key_slash : Z := 47.
Definition key_r : Z := 114.
Definition key_q : Z := 113.

Section Main.

Variable mktime : tm -> Z.

(** The body of the [switch] for the key [ch]; [line] is what the user
    types if the chosen operation prompts for text. *)
Definition dispatch (ch : Z) (line : list byte) (st : State) : option State :=
  if (ch =? key_j) || (ch =? KEY_DOWN) then
    Some (if selected st <? CInt.sint (todo_count st - 1)
          then with_selected (CInt.sint (selected st + 1)) st else st)
  else if (ch =? key_k) || (ch =? KEY_UP) then
    Some (if selected st >? 0
          then with_selected (CInt.sint (selected st - 1)) st else st)
  else if ch =? key_a then add_todo line st
  else if ch =? key_d then
    if todo_count st >? 0 then delete_todo (selected st) st else Some st
  else if ch =? key_space then
    if todo_count st >? 0 then toggle_todo (selected st) st else Some st
  else if ch =? key_e then
    if todo_count st >? 0 then edit_todo (selected st) line st else Some st
  else if ch =? key_D then
    if todo_count st >? 0 then set_due_date mktime (selected st) line st
    else Some st
  else if ch =? key_c then
    if todo_count st >? 0 then set_category (selected st) line st else Some st
  else if ch =? key_C then filter_by_category line st
  else if ch =? key_f then Some (filter_by_status st)
  else if ch =? key_slash then search_todos line st
  else if ch =? key_r then Some (reset_filters st)
  else Some st.

(** The [while] loop over the keys pressed, up to the first 'q'. *)
Fixpoint loop (keys : list (Z * list byte)) (st : State) : option State :=
  match keys with
  | [] => Some st
  | (ch, line) :: keys' =>
      if ch =? key_q then Some st
      else st ← dispatch ch line st; loop keys' st
  end.

(** [main]: load, run the loop, save. *)
Definition main (f : file) (fopen_ok : bool) (keys : list (Z * list byte))
  : option (State * file) :=
  st ← load_todos f initial_state;
  st ← loop keys st;
  f ← save_todos fopen_ok st f;
  Some (st, f).

End Main.

(** ** The vocabulary of the specification *)

(** Two strings are equal ignoring case; one occurs in the other ignoring
    case.  These follow the wording of the specification and are compared
    with [strcasecmp] and [strcasestr] below. *)
Definition ci_equal (a b : list byte) : Prop :=
  tolower <$> a = tolower <$> b.

Definition ci_infix (needle hay : list byte) : Prop :=
  exists before after : list byte,
    tolower <$> hay = before ++ (tolower <$> needle) ++ after.

(** The three criteria of the filter, on the strings held in the buffers. *)
Definition status_ok (st : State) (t : Todo) : Prop :=
  filter_done st <> -1 -> done t = filter_done st.

Definition category_ok (st : State) (t : Todo) : Prop :=
  cstr (filter_category st) <> [] ->
  ci_equal (cstr (category t)) (cstr (filter_category st)).

Definition search_ok (st : State) (t : Todo) : Prop :=
  cstr (search_term st) <> [] ->
  ci_infix (cstr (search_term st)) (cstr (text t))
  \/ ci_infix (cstr (search_term st)) (cstr (category t)).

(** One more criterion: a filter that was off is switched on, and nothing
    else changes. *)
Inductive adds_criterion (st : State) : State -> Prop :=
  | adds_category (buf : list byte) :
      cstr (filter_category st) = [] -> cstr buf <> [] ->
      adds_criterion st (with_filter_category buf st)
  | adds_status (v : Z) :
      filter_done st = -1 -> v <> -1 ->
      adds_criterion st (with_filter_done v st)
  | adds_search (buf : list byte) :
      cstr (search_term st) = [] -> cstr buf <> [] ->
      adds_criterion st (with_search_term buf st).

(** The bytes of a record are those of its type: two buffers of
    [MAX_LENGTH] bytes, a [time_t], an [int] and the padding. *)
Definition has_layout (t : Todo) : Prop :=
  length (text t) = MAX_LENGTH /\ length (category t) = MAX_LENGTH
  /\ CInt.is_long (due_date t) /\ CInt.is_int (done t)
  /\ length (pad t) = 4%nat.

(** The last byte of both buffers is NUL, as it is in zeroed storage and
    stays under [strncpy] with the bound [MAX_LENGTH - 1]: the strings of
    the record end inside their buffers. *)
Definition terminated (t : Todo) : Prop :=
  text t !! (MAX_LENGTH - 1)%nat = Some NUL
  /\ category t !! (MAX_LENGTH - 1)%nat = Some NUL.

Definition wf_Todo (t : Todo) : Prop := has_layout t /\ terminated t.

(** A store within capacity whose objects have the size of their types. *)
Definition shape (st : State) : Prop :=
  length (todos st) = Z.to_nat MAX_TODOS
  /\ 0 <= todo_count st <= MAX_TODOS
  /\ CInt.is_int (selected st)
  /\ length (filter_category st) = MAX_LENGTH
  /\ CInt.is_int (filter_done st)
  /\ length (search_term st) = MAX_LENGTH.

(** Such a store whose records, used or not, all hold proper strings. *)
Definition wf_State (st : State) : Prop :=
  shape st /\ Forall wf_Todo (todos st).

(** The selection invariant: with a record in the store, the selection is
    the index of one. *)
Definition sel_inv (st : State) : Prop :=
  0 < todo_count st -> 0 <= selected st < todo_count st.

(** What a step of the loop hands on: the shape of the store and the
    selection invariant, and proper strings in every record if they were
    there before. *)
Definition keeps (st st' : State) : Prop :=
  shape st' /\ sel_inv st'
  /\ (Forall wf_Todo (todos st) -> Forall wf_Todo (todos st')).

(** A file that ends before the records its header announces. *)
Definition truncated (data : list byte) : Prop :=
  Z.of_nat (length data)
  < 4 + sizeof_Todo * CInt.of_bytes (take 4 data).

(** ** Decidability of the predicates above *)

#[global] Instance byte_eq_dec : EqDecision byte.
Proof.
  intros x y. destruct (Byte.eqb x y) eqn:E.
  - left. by apply Byte.byte_dec_bl.
  - right. by apply Byte.eqb_false.
Defined.
#[global] Instance is_int_dec z : Decision (CInt.is_int z).
Proof. unfold CInt.is_int. apply _. Defined.
#[global] Instance is_long_dec z : Decision (CInt.is_long z).
Proof. unfold CInt.is_long. apply _. Defined.
#[global] Instance has_layout_dec t : Decision (has_layout t).
Proof. unfold has_layout. apply _. Defined.
#[global] Instance terminated_dec t : Decision (terminated t).
Proof. unfold terminated. apply _. Defined.
#[global] Instance wf_Todo_dec t : Decision (wf_Todo t).
Proof. unfold wf_Todo. apply _. Defined.
#[global] Instance shape_dec st : Decision (shape st).
Proof. unfold shape. apply _. Defined.
#[global] Instance wf_State_dec st : Decision (wf_State st).
Proof. unfold wf_State. apply _. Defined.
#[global] Instance sel_inv_dec st : Decision (sel_inv st).
Proof. unfold sel_inv. apply _. Defined.
#[global] Instance truncated_dec data : Decision (truncated data).
Proof. unfold truncated. apply _. Defined.

(** ** Sample data *)

Definition bytes (s : string) : list byte := list_byte_of_string s.

(** The store after Add "Buy milk", Add "Call Bob" and the category
    "Errands" for record 0; the same through the category filter "errands";
    and its record 0. *)
Definition two_todos : State :=
  default initial_state
    (st ← add_todo (bytes "Buy milk") initial_state;
     st ← add_todo (bytes "Call Bob") st;
     set_category 0 (bytes "Errands") st).

Definition errands_only : State :=
  default two_todos (filter_by_category (bytes "errands") two_todos).

Definition buy_milk : Todo :=
  default zero_Todo (todos_at two_todos 0).

(** ** More sample data *)

(** Keys of a short session: two Adds around a refused one, a toggle, an
    edit, a delete and the status key. *)
Definition sample_keys : list (Z * list byte) :=
  [(key_a, bytes "Buy milk"); (key_a, bytes ""); (key_space, []);
   (key_e, bytes "Buy oat milk"); (key_a, bytes "Call Bob");
   (key_d, []); (key_f, [])].

(** The file [save_todos] writes for [two_todos]. *)
Definition saved_two_todos : list byte :=
  default [] (default None (save_todos true two_todos None)).

(** One byte more of records than the array holds. *)
Definition oversized_file : list byte :=
  replicate (Z.to_nat (sizeof_Todo * MAX_TODOS + 1)) Byte.x00.

(** [two_todos] under the filter for pending records. *)
Definition pending_view : State := with_filter_done 0 two_todos.

(** ** The drawing pass *)








(** ** Further vocabulary *)

(** The completion flag holds one of the two values the program writes. *)
Definition flag_ok (t : Todo) : Prop := done t = 0 \/ done t = 1.

(** Every record of the store has a text. *)
Definition named (st : State) : Prop :=
  forall i t, 0 <= i < todo_count st -> todos_at st i = Some t ->
              cstr (text t) <> [].

(** The store of [st] under the filter criteria of [f]. *)
Definition with_filters_of (f st : State) : State :=
  mk_State (todos st) (todo_count st) (selected st)
           (filter_category f) (filter_done f) (search_term f).

(** The keys whose branch calls no filter operation. *)
Definition store_key (ch : Z) : bool :=
  negb ((ch =? key_C) || (ch =? key_f) || (ch =? key_slash) || (ch =? key_r)).

(** No criterion is switched on. *)
Definition unfiltered (st : State) : Prop :=
  cstr (filter_category st) = [] /\ filter_done st = -1
  /\ cstr (search_term st) = [].

(** A data file as [save_todos] lays it out: a header announcing between 0
    and 100 records, and exactly that many records behind it. *)
Definition complete_file (data : list byte) : Prop :=
  (4 <= length data)%nat
  /\ 0 <= CInt.of_bytes (take 4 data) <= MAX_TODOS
  /\ Z.of_nat (length data) = 4 + sizeof_Todo * CInt.of_bytes (take 4 data).

#[global] Instance flag_ok_dec t : Decision (flag_ok t).
Proof. unfold flag_ok. apply _. Defined.
#[global] Instance unfiltered_dec st : Decision (unfiltered st).
Proof. unfold unfiltered. apply _. Defined.
#[global] Instance complete_file_dec data : Decision (complete_file data).
Proof. unfold complete_file. apply _. Defined.

(** ** Strings inside their buffers *)

(** The buffer holds a string: there is a terminator inside it, so a scan
    from its first byte ends before the buffer does. *)
Definition string_in (buf : list byte) : Prop := NUL ∈ buf.

(** All strings a pass over the store reads lie inside their buffers:
    text and category of every record below the count, and the two
    filter strings. *)
Definition strings_in (st : State) : Prop :=
  Forall (fun t => string_in (text t) /\ string_in (category t))
         (take (Z.to_nat (todo_count st)) (todos st))
  /\ string_in (filter_category st) /\ string_in (search_term st).

#[global] Instance string_in_dec buf : Decision (string_in buf).
Proof. unfold string_in. apply _. Defined.
#[global] Instance strings_in_dec st : Decision (strings_in st).
Proof. unfold strings_in. apply _. Defined.

(** ** Ignoring case, in the words of the specification *)

(** 'A' .. 'Z'. *)
Definition capital (c : byte) : Prop := 65 <= byte.unsigned c <= 90.

(** Two characters are the same ignoring case: they are equal, or one is
    a capital letter and the other the small letter 32 places behind it. *)
Definition same_letter (a b : byte) : Prop :=
  a = b
  \/ (capital a /\ byte.unsigned b = byte.unsigned a + 32)
  \/ (capital b /\ byte.unsigned a = byte.unsigned b + 32).

(** Equal in full ignoring case: the same length, and character by
    character the same ignoring case. *)
Definition equal_ignoring_case (a b : list byte) : Prop :=
  Forall2 same_letter a b.

(** [needle] occurs in [hay] ignoring case: some stretch of [hay] equals
    it ignoring case. *)
Definition occurs_ignoring_case (needle hay : list byte) : Prop :=
  exists before found after : list byte,
    hay = before ++ found ++ after /\ equal_ignoring_case needle found.

(** The category and the search criterion in these words. *)
Definition category_passes (st : State) (t : Todo) : Prop :=
  cstr (filter_category st) <> [] ->
  equal_ignoring_case (cstr (category t)) (cstr (filter_category st)).

Definition search_passes (st : State) (t : Todo) : Prop :=
  cstr (search_term st) <> [] ->
  occurs_ignoring_case (cstr (search_term st)) (cstr (text t))
  \/ occurs_ignoring_case (cstr (search_term st)) (cstr (category t)).

(** ** Dates as they are typed, in the words of the specification *)

(** Space, tab, line feed, vertical tab, form feed, carriage return. *)
Definition blank (c : byte) : Prop :=
  c ∈ [Byte.x20; Byte.x09; Byte.x0a; Byte.x0b; Byte.x0c; Byte.x0d].

#[global] Instance blank_dec c : Decision (blank c).
Proof. unfold blank. apply _. Defined.

(** What remains of an input once the blanks in front are skipped does not
    start with a blank. *)
Definition not_blank_ahead (s : list byte) : Prop :=
  match s with
  | c :: _ => ~ blank c
  | [] => True
  end.

(** The value of a decimal digit. *)
Definition digit_of (c : byte) : option Z :=
  match c with
  | Byte.x30 => Some 0 | Byte.x31 => Some 1 | Byte.x32 => Some 2
  | Byte.x33 => Some 3 | Byte.x34 => Some 4 | Byte.x35 => Some 5
  | Byte.x36 => Some 6 | Byte.x37 => Some 7 | Byte.x38 => Some 8
  | Byte.x39 => Some 9
  | _ => None
  end.

(** The number written by a run of digits, read in base ten on top of
    [acc]; a run is not empty. *)
Fixpoint decimal_from (acc : Z) (ds : list byte) : option Z :=
  match ds with
  | [] => Some acc
  | c :: ds' =>
      match digit_of c with
      | Some v => decimal_from (10 * acc + v) ds'
      | None => None
      end
  end.

Definition decimal (ds : list byte) : option Z :=
  match ds with
  | [] => None
  | _ :: _ => decimal_from 0 ds
  end.

(** A numeric component: a run of digits, with '+' or '-' in front if one
    likes. *)
Inductive number : list byte -> Z -> Prop :=
  | number_plain ds n : decimal ds = Some n -> number ds n
  | number_plus ds n : decimal ds = Some n -> number (Byte.x2b :: ds) n
  | number_minus ds n : decimal ds = Some n -> number (Byte.x2d :: ds) (- n).

(** What follows a number does not go on with a digit. *)
Definition number_ends (rest : list byte) : Prop :=
  match rest with
  | c :: _ => digit_of c = None
  | [] => True
  end.

(** [s] starts with the numeric component [n], after blanks if any, and
    goes on with [rest]. *)
Definition component (s : list byte) (n : Z) (rest : list byte) : Prop :=
  exists w num : list byte,
    s = w ++ num ++ rest /\ Forall blank w /\ number num n
    /\ number_ends rest.

(** [s] parses into the three numeric components [y], [m] and [d]: year,
    '-', month, '-', day, and then anything. *)
Definition date_text (s : list byte) (y m d : Z) : Prop :=
  exists r1 r2 r3 : list byte,
    component s y (Byte.x2d :: r1)
    /\ component r1 m (Byte.x2d :: r2)
    /\ component r2 d r3.

(** The value a [%d] conversion leaves in its [int] for the number [n]
    of the input: [n] itself when it fits. *)
Definition stored (n : Z) : Z :=
  CInt.sint (Z.max CInt.LONG_MIN (Z.min CInt.LONG_MAX n)).

(** ** Proof automation *)

Ltac int_range :=
  unfold CInt.is_int, CInt.INT_MIN, CInt.INT_MAX, MAX_TODOS in *; lia.

Ltac wf_split :=
  unfold keeps, shape, wf_Todo, has_layout, terminated;
  repeat match goal with |- _ /\ _ => split end.

Ltac fields :=
  cbn [todos todo_count selected filter_category filter_done search_term
       with_todos with_todo_count with_selected with_filter_category
       with_filter_done with_search_term
       text category due_date done pad
       set_text set_category_buf set_due set_done] in *.

(** ** Machine integers *)

Lemma sint_id z : CInt.is_int z -> CInt.sint z = z.
Proof.
  unfold CInt.is_int, CInt.INT_MIN, CInt.INT_MAX, CInt.sint, CInt.swrap.
  intros H. change (2 ^ (32 - 1)) with 2147483648 in *.
  change (2 ^ 31) with 2147483648 in *.
  change (2 ^ 32) with 4294967296.
  rewrite Z.mod_small; lia.
Qed.

Lemma sint_range z : CInt.is_int (CInt.sint z).
Proof.
  unfold CInt.is_int, CInt.INT_MIN, CInt.INT_MAX, CInt.sint, CInt.swrap.
  change (32 - 1) with 31.
  pose proof (Z.mod_pos_bound (z + 2 ^ 31) (2 ^ 32) eq_refl).
  change (2 ^ 32) with (2 * 2 ^ 31) in *. lia.
Qed.

Lemma slong_range z : CInt.is_long (CInt.slong z).
Proof.
  unfold CInt.is_long, CInt.LONG_MIN, CInt.LONG_MAX, CInt.slong, CInt.swrap.
  change (64 - 1) with 63.
  pose proof (Z.mod_pos_bound (z + 2 ^ 63) (2 ^ 64) eq_refl).
  change (2 ^ 64) with (2 * 2 ^ 63) in *. lia.
Qed.

(** ** Strings *)

Section Strings.

Lemma is_nul_true c : is_nul c = true <-> c = NUL.
Proof.
  unfold is_nul. split; intros H.
  - by apply Byte.byte_dec_bl.
  - by apply Byte.byte_dec_lb.
Qed.

Lemma is_nul_false c : is_nul c = false <-> c <> NUL.
Proof.
  rewrite <- is_nul_true. destruct (is_nul c); split; congruence.
Qed.

Lemma tolower_nul c : tolower c = NUL <-> c = NUL.
Proof.
  split; intros H; [| by subst].
  apply byte.unsigned_inj. apply (f_equal byte.unsigned) in H.
  revert H. unfold tolower.
  pose proof (byte.unsigned_range c) as Hc.
  destruct ((65 <=? byte.unsigned c) && (byte.unsigned c <=? 90)) eqn:E.
  - rewrite byte.unsigned_of_Z. unfold byte.wrap. cbn.
    apply andb_true_iff in E as [E1 E2].
    apply Z.leb_le in E1, E2.
    rewrite Z.mod_small by lia. lia.
  - done.
Qed.

Lemma lowered_diff c1 c2 :
  byte.unsigned (tolower c1) - byte.unsigned (tolower c2) = 0
  <-> tolower c1 = tolower c2.
Proof.
  split; intros H.
  - apply byte.unsigned_inj. lia.
  - rewrite H. lia.
Qed.

Lemma cstr_nil_hd buf : is_nul (hd NUL buf) = true <-> cstr buf = [].
Proof.
  destruct buf as [|c rest]; cbn; [done|].
  destruct (is_nul c); split; congruence.
Qed.

Lemma cstr_no_nul buf : NUL ∉ cstr buf.
Proof.
  induction buf as [|c rest IH]; cbn.
  - apply not_elem_of_nil.
  - destruct (is_nul c) eqn:E; [apply not_elem_of_nil|].
    apply not_elem_of_cons. split; [|done].
    apply is_nul_false in E. congruence.
Qed.

Lemma cstr_id s : NUL ∉ s -> cstr s = s.
Proof.
  induction s as [|c rest IH]; cbn; [done|].
  intros [Hc Hr]%not_elem_of_cons.
  assert (is_nul c = false) as -> by (apply is_nul_false; congruence).
  by rewrite IH.
Qed.

Lemma cstr_idemp buf : cstr (cstr buf) = cstr buf.
Proof. apply cstr_id, cstr_no_nul. Qed.

Lemma cstr_app_nul s rest : NUL ∉ s -> cstr (s ++ NUL :: rest) = s.
Proof.
  induction s as [|c s IH]; cbn; [done|].
  intros [Hc Hr]%not_elem_of_cons.
  assert (is_nul c = false) as -> by (apply is_nul_false; congruence).
  by rewrite IH.
Qed.

(** [strcasecmp] returns 0 exactly on strings equal ignoring case. *)
Lemma strcasecmp_zero p1 p2 :
  strcasecmp p1 p2 = 0 <-> ci_equal (cstr p1) (cstr p2).
Proof.
  unfold ci_equal. revert p2.
  induction p1 as [|c1 p1 IH]; intros p2.
  - cbn [strcasecmp cstr fmap list_fmap].
    change (byte.unsigned (tolower NUL)) with 0.
    destruct p2 as [|c2 p2]; cbn [hd cstr]; [done|].
    destruct (is_nul c2) eqn:E.
    + apply is_nul_true in E. subst c2. done.
    + split; [|by cbn]. intros H.
      assert (c2 = NUL) as Hc.
      { apply tolower_nul, byte.unsigned_inj.
        change (byte.unsigned NUL) with 0. lia. }
      apply is_nul_false in E. congruence.
  - cbn [strcasecmp cstr].
    destruct (Z.eqb_spec
      (byte.unsigned (tolower c1) - byte.unsigned (tolower (hd NUL p2))) 0)
      as [Heq|Hne].
    + apply lowered_diff in Heq.
      destruct (is_nul c1) eqn:E1.
      * apply is_nul_true in E1. subst c1.
        symmetry in Heq. apply (proj1 (tolower_nul _)) in Heq.
        destruct p2 as [|c2 p2]; cbn in *; [done|].
        subst c2. done.
      * destruct p2 as [|c2 p2]; cbn [hd tl cstr] in *.
        { apply (proj1 (tolower_nul _)) in Heq. apply is_nul_false in E1. congruence. }
        assert (is_nul c2 = false) as ->.
        { apply is_nul_false. intros ->. apply (proj1 (tolower_nul _)) in Heq.
          apply is_nul_false in E1. congruence. }
        rewrite IH. cbn. rewrite Heq. split; [congruence|].
        intros H. by injection H.
    + split; [done|]. intros H. exfalso. apply Hne, lowered_diff.
      destruct (is_nul c1) eqn:E1.
      * apply is_nul_true in E1. subst c1.
        destruct p2 as [|c2 p2]; cbn [hd cstr] in *; [done|].
        destruct (is_nul c2) eqn:E2; [|done].
        apply is_nul_true in E2. by subst.
      * destruct p2 as [|c2 p2]; cbn [hd cstr] in *; [done|].
        destruct (is_nul c2) eqn:E2; [done|].
        cbn in H. by injection H.
Qed.

Lemma byte_eqb_true a b : Byte.eqb a b = true <-> a = b.
Proof.
  split; [apply Byte.byte_dec_bl | apply Byte.byte_dec_lb].
Qed.

(** [match_here] finds the needle as a prefix, ignoring case. *)
Lemma match_here_prefix s needle :
  match_here s needle = true
  <-> exists after, tolower <$> cstr s = (tolower <$> cstr needle) ++ after.
Proof.
  revert s. induction needle as [|n needle IH]; intros s.
  - cbn. split; [intros _; by exists (tolower <$> cstr s)|by intros _].
  - cbn [match_here cstr].
    destruct (is_nul n) eqn:En.
    { cbn. split; [intros _; by exists (tolower <$> cstr s)|by intros _]. }
    destruct s as [|c s]; cbn [cstr].
    { split; [done|]. intros [after H]. done. }
    destruct (is_nul c) eqn:Ec.
    { split; [done|]. intros [after H]. done. }
    rewrite andb_true_iff, byte_eqb_true, IH. cbn.
    split.
    + intros [Hc [after H]]. exists after. by rewrite Hc, H.
    + intros [after H]. injection H as Hc H. eauto.
Qed.

(** [strcasestr] finds the needle exactly when it occurs ignoring case. *)
Lemma strcasestr_found haystack needle :
  is_Some (strcasestr haystack needle)
  <-> ci_infix (cstr needle) (cstr haystack).
Proof.
  unfold ci_infix.
  induction haystack as [|c rest IH]; cbn [strcasestr].
  - destruct (match_here [] needle) eqn:Hm.
    + apply match_here_prefix in Hm as [after H].
      split; [|eauto]. intros _. exists [], after. done.
    + split; [by intros [? ?]|]. intros (before & after & H). exfalso.
      cbn in H. destruct before; [|done]. cbn in H.
      assert (match_here [] needle = true); [|congruence].
      apply match_here_prefix. eauto.
  - destruct (match_here (c :: rest) needle) eqn:Hm.
    + apply match_here_prefix in Hm as [after H].
      split; [|eauto]. intros _. exists [], after. done.
    + cbn [cstr]. destruct (is_nul c) eqn:Ec.
      * split; [by intros [? ?]|]. intros (before & after & H). exfalso.
        cbn in H. destruct before; [|done]. cbn in H.
        assert (match_here (c :: rest) needle = true); [|congruence].
        apply match_here_prefix. cbn [cstr]. rewrite Ec. eauto.
      * rewrite fmap_is_Some, IH. split.
        -- intros (before & after & H).
           exists (tolower c :: before), after. cbn. by rewrite H.
        -- intros (before & after & H). destruct before as [|b before].
           { exfalso.
             assert (match_here (c :: rest) needle = true); [|congruence].
             apply match_here_prefix. cbn [cstr]. rewrite Ec. eauto. }
           cbn in H. injection H as _ H. eauto.
Qed.

End Strings.

(** ** The filter predicate *)

Section Filter.

Lemma status_test st t :
  negb (filter_done st =? -1) && negb (done t =? filter_done st) = false
  <-> status_ok st t.
Proof.
  unfold status_ok.
  destruct (Z.eqb_spec (filter_done st) (-1)),
           (Z.eqb_spec (done t) (filter_done st)); cbn; split; try done.
  intros H. exfalso. auto.
Qed.

Lemma category_test st t :
  negb (is_nul (hd NUL (filter_category st)))
  && negb (strcasecmp (category t) (filter_category st) =? 0) = false
  <-> category_ok st t.
Proof.
  unfold category_ok. rewrite <- strcasecmp_zero, <- cstr_nil_hd.
  destruct (is_nul (hd NUL (filter_category st))),
           (Z.eqb_spec (strcasecmp (category t) (filter_category st)) 0);
    cbn; split; try done.
  intros H. exfalso. apply n, H. done.
Qed.

Lemma search_test st t :
  negb (is_nul (hd NUL (search_term st)))
  && negb (bool_decide (is_Some (strcasestr (text t) (search_term st))))
  && negb (bool_decide (is_Some (strcasestr (category t) (search_term st))))
  = false
  <-> search_ok st t.
Proof.
  unfold search_ok. rewrite <- !strcasestr_found, <- cstr_nil_hd.
  destruct (is_nul (hd NUL (search_term st))); cbn; [split; done|].
  do 2 case_bool_decide; cbn; split; try done; auto.
  intros Hs. destruct Hs as [H'|H']; done.
Qed.

(** The three tests of the code are the three criteria of the
    specification. *)
Lemma matches_iff st t :
  matches st t = true <-> status_ok st t /\ category_ok st t /\ search_ok st t.
Proof.
  rewrite <- status_test, <- category_test, <- search_test.
  unfold matches.
  repeat match goal with
         | |- context [if ?c then _ else _] => destruct c
         end; intuition congruence.
Qed.

End Filter.

(** ** Ignoring case: the code against the words *)

Section IgnoringCase.

Lemma unsigned_tolower c :
  byte.unsigned (tolower c)
  = if (65 <=? byte.unsigned c) && (byte.unsigned c <=? 90)
    then byte.unsigned c + 32 else byte.unsigned c.
Proof.
  unfold tolower. pose proof (byte.unsigned_range c) as Hc.
  destruct ((65 <=? byte.unsigned c) && (byte.unsigned c <=? 90)) eqn:E;
    [|done].
  apply andb_true_iff in E as [E1%Z.leb_le E2%Z.leb_le].
  rewrite byte.unsigned_of_Z. unfold byte.wrap.
  rewrite Z.mod_small; [done|]. change (2 ^ 8) with 256. lia.
Qed.

(** [tolower] sends two characters to the same one exactly when they are
    the same letter ignoring case. *)
Lemma tolower_same_letter a b : tolower a = tolower b <-> same_letter a b.
Proof.
  unfold same_letter, capital. split.
  - intros H. apply (f_equal byte.unsigned) in H.
    rewrite !unsigned_tolower in H.
    destruct (Z.leb_spec 65 (byte.unsigned a)),
             (Z.leb_spec (byte.unsigned a) 90),
             (Z.leb_spec 65 (byte.unsigned b)),
             (Z.leb_spec (byte.unsigned b) 90);
      cbn [andb] in H;
      first [ left; apply byte.unsigned_inj; lia
            | right; left; lia
            | right; right; lia ].
  - intros H. apply byte.unsigned_inj. rewrite !unsigned_tolower.
    destruct H as [->|[[Ha Hb]|[Hb Ha]]]; [done| |];
      destruct (Z.leb_spec 65 (byte.unsigned a)),
               (Z.leb_spec (byte.unsigned a) 90),
               (Z.leb_spec 65 (byte.unsigned b)),
               (Z.leb_spec (byte.unsigned b) 90);
      cbn [andb]; lia.
Qed.

Lemma ci_equal_words a b : ci_equal a b <-> equal_ignoring_case a b.
Proof.
  unfold ci_equal, equal_ignoring_case. revert b.
  induction a as [|x a IH]; intros [|y b]; cbn.
  - split; intros _; [constructor|done].
  - split; [done|]. intros H. inversion H.
  - split; [done|]. intros H. inversion H.
  - split.
    + intros [= Hxy Hab]. constructor; [by apply tolower_same_letter|].
      by apply IH.
    + intros H. inversion H as [|? ? ? ? Hxy Hab]; subst.
      f_equal; [by apply tolower_same_letter|by apply IH].
Qed.

Lemma ci_infix_words needle hay :
  ci_infix needle hay <-> occurs_ignoring_case needle hay.
Proof.
  unfold ci_infix, occurs_ignoring_case. split.
  - intros (before & after & H).
    apply fmap_app_inv in H as (h1 & h23 & -> & H & ->).
    symmetry in H. apply fmap_app_inv in H as (h2 & h3 & H2 & -> & ->).
    exists h1, h2, h3. split; [done|]. by apply ci_equal_words.
  - intros (h1 & h2 & h3 & -> & H). apply ci_equal_words in H.
    exists (tolower <$> h1), (tolower <$> h3).
    unfold ci_equal in H. by rewrite !fmap_app, H.
Qed.

(** The three tests of the code are the three criteria in the words of
    the specification. *)
Lemma matches_words st t :
  matches st t = true
  <-> status_ok st t /\ category_passes st t /\ search_passes st t.
Proof.
  rewrite matches_iff. unfold category_ok, category_passes, search_ok,
    search_passes.
  rewrite <- !ci_infix_words.
  split; intros (Hs & Hc & Hq); (split; [done|]); (split; [|done]);
    intros Hne; apply ci_equal_words; auto.
Qed.

(** C1. On a record and a filter state whose strings lie inside their
    buffers, the filter predicate returns true exactly when the three
    criteria hold: the completion filter is 'all' (-1) or the done flag
    equals it; the category filter is empty or equals the record's
    category in full, ignoring case; the search term is empty or occurs,
    ignoring case, in the record's text or in its category. *)
Theorem todo_matches_filter_iff st idx t :
  todos_at st idx = Some t ->
  string_in (text t) -> string_in (category t) ->
  string_in (filter_category st) -> string_in (search_term st) ->
  exists b : bool,
    todo_matches_filter st idx = Some b
    /\ (b = true
        <-> status_ok st t /\ category_passes st t /\ search_passes st t).
Proof.
  intros Hat _ _ _ _. exists (matches st t). split.
  - unfold todo_matches_filter. by rewrite Hat.
  - apply matches_words.
Qed.

End IgnoringCase.

Lemma todo_matches_filter_iff_witness :
  todo_matches_filter errands_only 0 = Some true
  /\ status_ok errands_only buy_milk
  /\ category_passes errands_only buy_milk
  /\ search_passes errands_only buy_milk.
Proof.
  destruct (todo_matches_filter_iff errands_only 0 buy_milk)
    as (b & Hb & Hiff).
  - vm_compute. reflexivity.
  - apply (bool_decide_unpack _). vm_compute. exact I.
  - apply (bool_decide_unpack _). vm_compute. exact I.
  - apply (bool_decide_unpack _). vm_compute. exact I.
  - apply (bool_decide_unpack _). vm_compute. exact I.
  - assert (Hrun : todo_matches_filter errands_only 0 = Some true)
      by (vm_compute; reflexivity).
    split; [exact Hrun|]. apply Hiff. congruence.
Defined.

(** The end-to-end scenario of the specification: of "Buy milk" (category
    "Errands") and "Call Bob", the filter "errands" shows the first only. *)
Example errands_visible : visible errands_only = [0].
Proof. vm_compute. reflexivity. Qed.

Example work_is_not_work2 :
  strcasecmp (bytes "Work2") (bytes "Work") <> 0
  /\ strcasecmp (bytes "WORK") (bytes "Work") = 0
  /\ strcasestr (bytes "Family") (bytes "mil") = Some 2%nat.
Proof. vm_compute. repeat split; congruence. Qed.

(** ** The filter operations *)

Section FilterOps.

(** C2. The code does not advance the completion filter: on each of the
    three values the statement [(filter_done + 1) % 3 - 1] gives the value
    it started from, so from 'all' (-1) one invocation yields 'all'. *)
Theorem filter_by_status_stuck st :
  filter_done (filter_by_status (with_filter_done (-1) st)) = -1
  /\ filter_done (filter_by_status (with_filter_done 0 st)) = 0
  /\ filter_done (filter_by_status (with_filter_done 1 st)) = 1.
Proof. repeat split. Qed.

Lemma cstr_cleared buf : cstr (<[0%nat := NUL]> buf) = [].
Proof. by destruct buf. Qed.

Lemma getstr_fits buf line :
  (length line < length buf)%nat ->
  getstr buf line = Some (line ++ NUL :: drop (S (length line)) buf).
Proof.
  intros H. unfold getstr.
  by destruct (Nat.ltb_spec (length line) (length buf)); [|lia].
Qed.

Lemma getstr_length buf line buf' :
  getstr buf line = Some buf' -> length buf' = length buf.
Proof.
  unfold getstr. destruct (Nat.ltb_spec (length line) (length buf)); [|done].
  intros [= <-]. rewrite length_app. cbn. rewrite length_drop. lia.
Qed.

Variable mktime : tm -> Z.

(** C10. The category filter ('C'), the status filter ('f') and the
    search ('/') each leave the selection at 0 whatever it was and
    whatever the store holds; the reset ('r') empties the two filter
    strings, sets the completion filter to 'all' and keeps the
    selection. *)
Theorem filters_reset_selection line st :
  (length line < length (filter_category st))%nat ->
  (length line < length (search_term st))%nat ->
  (exists st', dispatch mktime key_C line st = Some st' /\ selected st' = 0)
  /\ (exists st', dispatch mktime key_f line st = Some st' /\ selected st' = 0)
  /\ (exists st', dispatch mktime key_slash line st = Some st'
                  /\ selected st' = 0)
  /\ (exists st', dispatch mktime key_r line st = Some st'
                  /\ selected st' = selected st
                  /\ cstr (filter_category st') = []
                  /\ filter_done st' = -1
                  /\ cstr (search_term st') = []
                  /\ todos st' = todos st
                  /\ todo_count st' = todo_count st).
Proof.
  intros Hc Hs. repeat split.
  - cbn. unfold filter_by_category. rewrite getstr_fits by done. cbn. eauto.
  - cbn. eauto.
  - cbn. unfold search_todos. rewrite getstr_fits by done. cbn. eauto.
  - cbn. eexists. split; [done|]. cbn. by rewrite !cstr_cleared.
Qed.

End FilterOps.

Lemma filters_reset_selection_witness :
  (exists st', dispatch mktime_utc key_C (bytes "errands") two_todos = Some st'
               /\ selected st' = 0)
  /\ (exists st', dispatch mktime_utc key_f (bytes "errands") two_todos = Some st'
                  /\ selected st' = 0)
  /\ (exists st', dispatch mktime_utc key_slash (bytes "errands") two_todos
                  = Some st' /\ selected st' = 0)
  /\ (exists st', dispatch mktime_utc key_r (bytes "errands") two_todos
                  = Some st'
                  /\ selected st' = selected two_todos
                  /\ cstr (filter_category st') = []
                  /\ filter_done st' = -1
                  /\ cstr (search_term st') = []
                  /\ todos st' = todos two_todos
                  /\ todo_count st' = todo_count two_todos).
Proof.
  apply (filters_reset_selection mktime_utc (bytes "errands") two_todos);
    vm_compute; lia.
Defined.

(** ** Monotonicity of the filter *)

Section Monotone.

Lemma elem_of_visible_from st n k i :
  i ∈ visible_from st n k
  <-> k <= i < k + Z.of_nat n /\ todo_matches_filter st i = Some true.
Proof.
  revert k. induction n as [|n IH]; intros k.
  - cbn. rewrite elem_of_nil. lia.
  - cbn [visible_from].
    destruct (todo_matches_filter st k) as [[|]|] eqn:Hk.
    + rewrite elem_of_cons, IH. split.
      * intros [->|[? ?]]; (split; [lia|done]).
      * intros [? ?]. destruct (decide (i = k)); [by left|right].
        split; [lia|done].
    + rewrite IH. split.
      * intros [? ?]. split; [lia|done].
      * intros [? Hi]. split; [|done].
        destruct (decide (i = k)) as [->|]; [congruence|lia].
    + rewrite IH. split.
      * intros [? ?]. split; [lia|done].
      * intros [? Hi]. split; [|done].
        destruct (decide (i = k)) as [->|]; [congruence|lia].
Qed.

Lemma elem_of_visible st i :
  i ∈ visible st
  <-> 0 <= i < todo_count st /\ todo_matches_filter st i = Some true.
Proof.
  unfold visible. rewrite elem_of_visible_from.
  split; (intros [? ?]; split; [lia|done]).
Qed.

(** A record that passes the stronger filter passes the weaker one. *)
Lemma matches_mono st st' t :
  adds_criterion st st' -> matches st' t = true -> matches st t = true.
Proof.
  intros Hadd. rewrite !matches_iff.
  unfold status_ok, category_ok, search_ok.
  destruct Hadd as [buf Hoff Hon | v Hoff Hon | buf Hoff Hon]; cbn;
    intros (Hs & Hc & Hq); repeat split; auto; congruence.
Qed.

Lemma adds_criterion_store st st' :
  adds_criterion st st' ->
  todos st' = todos st /\ todo_count st' = todo_count st.
Proof. by intros [| |]. Qed.

Lemma todo_matches_filter_mono st st' idx :
  adds_criterion st st' ->
  todo_matches_filter st' idx = Some true ->
  todo_matches_filter st idx = Some true.
Proof.
  intros Hadd. pose proof (adds_criterion_store _ _ Hadd) as [Ht _].
  unfold todo_matches_filter, todos_at. rewrite Ht.
  destruct (if in_array idx then todos st !! Z.to_nat idx else None) as [t|];
    cbn; [|done].
  intros [= Hm]. by rewrite (matches_mono _ _ _ Hadd Hm).
Qed.

(** C8. Switching on one more criterion (a category filter, a completion
    value in place of 'all', or a search term, where there was none) makes
    no hidden record visible: a record that passes the new filter passed
    the old one, and every row shown afterwards was shown before. *)
Theorem filter_monotone st st' :
  adds_criterion st st' ->
  (forall idx, todo_matches_filter st' idx = Some true ->
               todo_matches_filter st idx = Some true)
  /\ (forall i, i ∈ visible st' -> i ∈ visible st).
Proof.
  intros Hadd. split.
  - intros idx. by apply todo_matches_filter_mono.
  - intros i. rewrite !elem_of_visible.
    pose proof (adds_criterion_store _ _ Hadd) as [_ ->].
    intros [? ?]. split; [done|]. by eapply todo_matches_filter_mono.
Qed.

End Monotone.

Lemma filter_monotone_witness :
  (forall idx,
      todo_matches_filter (with_filter_category (bytes "errands") two_todos) idx
      = Some true ->
      todo_matches_filter two_todos idx = Some true)
  /\ (forall i,
        i ∈ visible (with_filter_category (bytes "errands") two_todos) ->
        i ∈ visible two_todos).
Proof.
  apply (filter_monotone two_todos
           (with_filter_category (bytes "errands") two_todos)).
  apply adds_category; vm_compute; congruence.
Defined.

(** ** The array and its buffers *)

Section Arrays.

Lemma todos_at_Some st idx t :
  todos_at st idx = Some t
  <-> 0 <= idx < MAX_TODOS /\ todos st !! Z.to_nat idx = Some t.
Proof.
  unfold todos_at, in_array, MAX_TODOS.
  destruct (Z.leb_spec 0 idx), (Z.ltb_spec idx 100); cbn;
    split; try done; try lia; intros [? ?]; try done; lia.
Qed.

Lemma todos_at_valid st idx :
  length (todos st) = Z.to_nat MAX_TODOS -> 0 <= idx < MAX_TODOS ->
  exists t, todos_at st idx = Some t.
Proof.
  intros Hlen Hidx.
  destruct (lookup_lt_is_Some_2 (todos st) (Z.to_nat idx)) as [t Ht].
  { rewrite Hlen. unfold MAX_TODOS in *. lia. }
  exists t. by apply todos_at_Some.
Qed.

Lemma todos_put_valid st idx t :
  0 <= idx < MAX_TODOS -> (Z.to_nat idx < length (todos st))%nat ->
  todos_put st idx t
  = Some (with_todos (<[Z.to_nat idx := t]> (todos st)) st).
Proof.
  intros Hidx Hlen. unfold todos_put, in_array, MAX_TODOS in *.
  destruct (Z.leb_spec 0 idx), (Z.ltb_spec idx 100); try lia.
  by destruct (Nat.ltb_spec (Z.to_nat idx) (length (todos st))); [|lia].
Qed.

Lemma todos_at_insert_eq st idx t :
  0 <= idx < MAX_TODOS -> (Z.to_nat idx < length (todos st))%nat ->
  todos_at (with_todos (<[Z.to_nat idx := t]> (todos st)) st) idx = Some t.
Proof.
  intros Hidx Hlen. apply todos_at_Some. split; [done|]. cbn.
  by apply list_lookup_insert_eq.
Qed.

Lemma todos_at_insert_ne st idx i t :
  0 <= idx -> i <> idx ->
  todos_at (with_todos (<[Z.to_nat idx := t]> (todos st)) st) i
  = todos_at st i.
Proof.
  intros Hidx Hne. unfold todos_at, in_array. cbn.
  destruct (Z.leb_spec 0 i); cbn; [|done].
  destruct (i <? MAX_TODOS); [|done].
  apply list_lookup_insert_ne. lia.
Qed.

Lemma cstr_before_NUL l rest : cstr (l ++ NUL :: rest) = cstr l.
Proof.
  induction l as [|c l IH]; cbn.
  - done.
  - destruct (is_nul c); [done|]. by rewrite IH.
Qed.

Lemma cstr_getstr buf line buf' :
  getstr buf line = Some buf' -> cstr buf' = cstr line.
Proof.
  unfold getstr. destruct (length line <? length buf)%nat; [|done].
  intros [= <-]. apply cstr_before_NUL.
Qed.

Lemma length_cstr buf : (length (cstr buf) <= length buf)%nat.
Proof.
  induction buf as [|c buf IH]; cbn; [done|].
  destruct (is_nul c); cbn; lia.
Qed.

Lemma length_local_buffer : length local_buffer = MAX_LENGTH.
Proof. apply length_replicate. Qed.

Lemma cstr_replicate_NUL s k :
  NUL ∉ s -> cstr (s ++ replicate k NUL ++ [NUL]) = s.
Proof.
  intros Hs. destruct k; cbn [replicate app]; by apply cstr_app_nul.
Qed.

(** What [strncpy] with the bound [MAX_LENGTH - 1] leaves in a buffer of
    [MAX_LENGTH] bytes whose last byte is NUL. *)
Lemma strncpy_buffer dst src :
  length dst = MAX_LENGTH -> dst !! (MAX_LENGTH - 1)%nat = Some NUL ->
  length (strncpy dst src (MAX_LENGTH - 1)) = MAX_LENGTH
  /\ strncpy dst src (MAX_LENGTH - 1) !! (MAX_LENGTH - 1)%nat = Some NUL
  /\ cstr (strncpy dst src (MAX_LENGTH - 1))
     = take (MAX_LENGTH - 1) (cstr src).
Proof.
  intros Hlen Hlast. unfold strncpy, MAX_LENGTH in *.
  change (128 - 1)%nat with 127%nat in *.
  assert (Hdrop : drop 127 dst = [NUL]).
  { rewrite (drop_S dst NUL 127 Hlast).
    by rewrite drop_ge by lia. }
  rewrite Hdrop, take_app, take_replicate.
  replace ((127 - length (cstr src)) `min` 127)%nat
    with (127 - length (cstr src))%nat by lia.
  set (k := (127 - length (cstr src))%nat).
  assert (Hpre : length (take 127 (cstr src) ++ replicate k NUL) = 127%nat).
  { rewrite length_app, length_take, length_replicate. lia. }
  repeat split.
  - rewrite length_app, Hpre. cbn. lia.
  - rewrite lookup_app_r by lia. by rewrite Hpre, Nat.sub_diag.
  - rewrite <- app_assoc. apply cstr_replicate_NUL.
    intros Hin. apply (cstr_no_nul src).
    apply elem_of_take in Hin as (i & Hi & _).
    by eapply list_elem_of_lookup_2.
Qed.

End Arrays.

(** ** Add *)

Section Add.

Lemma wf_State_at st idx t :
  wf_State st -> todos_at st idx = Some t -> wf_Todo t.
Proof.
  intros [_ Hall] Hat.
  apply (proj1 (todos_at_Some _ _ _)) in Hat as [_ Ht].
  by apply (Forall_lookup_1 _ _ _ _ Hall Ht).
Qed.

Lemma add_todo_rejects line st :
  (length line < MAX_LENGTH)%nat ->
  cstr line = [] \/ MAX_TODOS <= todo_count st ->
  add_todo line st = Some st.
Proof.
  intros Hline Hno. unfold add_todo.
  rewrite getstr_fits by (by rewrite length_local_buffer).
  cbn [mbind option_bind].
  set (buf := line ++ NUL :: drop (S (length line)) local_buffer).
  destruct (is_nul (hd NUL buf)) eqn:E; cbn [negb andb]; [done|].
  destruct (Z.ltb_spec (todo_count st) MAX_TODOS); [|done].
  destruct Hno as [Hno|Hno]; [|lia].
  assert (is_nul (hd NUL buf) = true); [|congruence].
  apply cstr_nil_hd. unfold buf. by rewrite cstr_before_NUL.
Qed.

Lemma add_todo_accepts line st t :
  (length line < MAX_LENGTH)%nat ->
  cstr line <> [] -> 0 <= todo_count st < MAX_TODOS ->
  todos_at st (todo_count st) = Some t ->
  add_todo line st
  = Some (with_selected (CInt.sint (CInt.sint (todo_count st + 1) - 1))
           (with_todo_count (CInt.sint (todo_count st + 1))
             (with_todos
               (<[Z.to_nat (todo_count st) :=
                    set_done 0 (set_due 0
                      (set_category_buf (<[0%nat := NUL]> (category t))
                        (set_text (strncpy (text t) (line ++ NUL :: drop (S (length line)) local_buffer)
                                     (MAX_LENGTH - 1)) t)))]>
                  (todos st)) st))).
Proof.
  intros Hline Hne Hcnt Hat. unfold add_todo.
  rewrite getstr_fits by (by rewrite length_local_buffer). cbn [mbind option_bind].
  set (buf := line ++ NUL :: drop (S (length line)) local_buffer).
  assert (is_nul (hd NUL buf) = false) as ->.
  { destruct (is_nul (hd NUL buf)) eqn:E; [|done].
    apply cstr_nil_hd in E. unfold buf in E.
    by rewrite cstr_before_NUL in E. }
  destruct (Z.ltb_spec (todo_count st) MAX_TODOS); [|lia].
  cbn [negb andb]. rewrite Hat. cbn [mbind option_bind].
  apply (proj1 (todos_at_Some _ _ _)) in Hat as [Hidx Hat].
  rewrite todos_put_valid; [done|done|].
  by eapply lookup_lt_Some.
Qed.

(** C5. With a non-empty input and room left, Add writes one record at
    index [todo_count] (the given text, an empty category, no due date,
    not done), adds one to the count, leaves every other slot as it was
    and selects the new last index; with an empty input or a full store it
    changes nothing. *)
Theorem add_todo_spec line st :
  wf_State st -> (length line < MAX_LENGTH)%nat ->
  exists st', add_todo line st = Some st'
    /\ (cstr line <> [] -> todo_count st < MAX_TODOS ->
        todo_count st' = todo_count st + 1
        /\ selected st' = todo_count st' - 1
        /\ (exists t, todos_at st' (todo_count st) = Some t
              /\ cstr (text t) = cstr line /\ cstr (category t) = []
              /\ due_date t = 0 /\ done t = 0)
        /\ (forall i, i <> todo_count st -> todos_at st' i = todos_at st i)
        /\ filter_category st' = filter_category st
        /\ filter_done st' = filter_done st
        /\ search_term st' = search_term st)
    /\ (cstr line = [] \/ todo_count st = MAX_TODOS -> st' = st).
Proof.
  intros Hwf Hline.
  pose proof Hwf as [(Hlen & Hcnt & _) Hall].
  destruct (decide (cstr line <> [] /\ todo_count st < MAX_TODOS))
    as [[Hne Hroom]|Hno].
  - destruct (todos_at_valid st (todo_count st)) as [t Hat]; [done|lia|].
    pose proof (wf_State_at _ _ _ Hwf Hat) as [(Htl & _) (Htn & _)].
    destruct (strncpy_buffer (text t)
                (line ++ NUL :: drop (S (length line)) local_buffer)
                Htl Htn) as (_ & _ & Hstr).
    rewrite (add_todo_accepts line st t) by (done || lia).
    eexists. split; [reflexivity|]. split; [|intros [?|?]; [done|lia]].
    intros _ _.
    cbn [todo_count selected with_selected with_todo_count with_todos
         filter_category filter_done search_term todos].
    rewrite !sint_id by (rewrite ?sint_id; int_range).
    split; [done|]. split; [lia|]. split; [|split; [|done]].
    + eexists. split.
      * apply (todos_at_insert_eq st); [lia|].
        rewrite Hlen. unfold MAX_TODOS in *. lia.
      * cbn [text category due_date done
               set_done set_due set_category_buf set_text].
        rewrite Hstr, cstr_before_NUL, cstr_cleared.
        rewrite take_ge; [done|].
        pose proof (length_cstr line). lia.
    + intros i Hi. by apply (todos_at_insert_ne st); [lia|].
  - exists st. rewrite add_todo_rejects; [|done|].
    + split; [done|]. split; [|done]. intros ? ?. exfalso. auto.
    + destruct (decide (cstr line = [])); [by left|right].
      destruct (decide (todo_count st < MAX_TODOS)); [|lia].
      exfalso. auto.
Qed.

End Add.

Lemma wf_two_todos : wf_State two_todos.
Proof. apply (bool_decide_unpack _). vm_compute. exact I. Defined.

Lemma add_todo_spec_witness :
  exists st', add_todo (bytes "Feed cat") two_todos = Some st'
    /\ (cstr (bytes "Feed cat") <> [] -> todo_count two_todos < MAX_TODOS ->
        todo_count st' = todo_count two_todos + 1
        /\ selected st' = todo_count st' - 1
        /\ (exists t, todos_at st' (todo_count two_todos) = Some t
              /\ cstr (text t) = cstr (bytes "Feed cat")
              /\ cstr (category t) = []
              /\ due_date t = 0 /\ done t = 0)
        /\ (forall i, i <> todo_count two_todos ->
                      todos_at st' i = todos_at two_todos i)
        /\ filter_category st' = filter_category two_todos
        /\ filter_done st' = filter_done two_todos
        /\ search_term st' = search_term two_todos)
    /\ (cstr (bytes "Feed cat") = [] \/ todo_count two_todos = MAX_TODOS ->
        st' = two_todos).
Proof.
  apply (add_todo_spec (bytes "Feed cat") two_todos).
  - exact wf_two_todos.
  - vm_compute. lia.
Defined.

(** ** Delete *)

Section Delete.

Lemma with_todos_twice l l' st : with_todos l' (with_todos l st) = with_todos l' st.
Proof. done. Qed.

(** The loop of [delete_todo] moves the [n] records behind index [i] one
    slot down and leaves the others where they are. *)
Lemma shift_left_spec n i st :
  0 <= i -> i + Z.of_nat n < MAX_TODOS ->
  (Z.to_nat MAX_TODOS <= length (todos st))%nat ->
  exists l',
    shift_left n i st = Some (with_todos l' st)
    /\ length l' = length (todos st)
    /\ forall k : nat,
         l' !! k = if decide (Z.to_nat i <= k < Z.to_nat i + n)%nat
                   then todos st !! S k else todos st !! k.
Proof.
  revert i st. induction n as [|n IH]; intros i st Hi Hn Hlen.
  - exists (todos st). cbn. split; [by destruct st|]. split; [done|].
    intros k. case_decide; [lia|done].
  - cbn [shift_left].
    destruct (lookup_lt_is_Some_2 (todos st) (Z.to_nat (i + 1))) as [t Ht].
    { unfold MAX_TODOS in *. lia. }
    assert (Hat : todos_at st (i + 1) = Some t).
    { apply todos_at_Some. split; [lia|done]. }
    rewrite Hat. cbn [mbind option_bind].
    rewrite todos_put_valid; [|lia|unfold MAX_TODOS in *; lia].
    cbn [mbind option_bind].
    destruct (IH (i + 1) (with_todos (<[Z.to_nat i := t]> (todos st)) st))
      as (l' & Hrun & Hlen' & Hk); [lia|lia|cbn; by rewrite length_insert|].
    exists l'. split; [by rewrite Hrun|].
    cbn [todos with_todos] in Hlen', Hk. rewrite length_insert in Hlen'.
    split; [done|]. intros k. rewrite Hk.
    replace (Z.to_nat (i + 1)) with (S (Z.to_nat i)) in * by lia.
    destruct (decide (k = Z.to_nat i)) as [->|Hne].
    + rewrite decide_False by lia. rewrite decide_True by lia.
      rewrite list_lookup_insert_eq; [done|]. unfold MAX_TODOS in *. lia.
    + repeat case_decide; try lia;
        rewrite list_lookup_insert_ne by lia; done.
Qed.

Lemma delete_todo_runs idx st :
  (Z.to_nat MAX_TODOS <= length (todos st))%nat ->
  todo_count st <= MAX_TODOS -> 0 <= idx < todo_count st ->
  exists l',
    delete_todo idx st
    = Some (let st1 := with_todo_count (todo_count st - 1) (with_todos l' st) in
            if (selected st >=? todo_count st - 1) && (selected st >? 0)
            then with_selected (CInt.sint (selected st - 1)) st1 else st1)
    /\ length l' = length (todos st)
    /\ forall k : nat,
         l' !! k
         = if decide (Z.to_nat idx <= k < Z.to_nat (todo_count st - 1))%nat
           then todos st !! S k else todos st !! k.
Proof.
  intros Hlen Hcnt Hidx. unfold delete_todo.
  destruct (shift_left_spec (Z.to_nat (todo_count st - 1 - idx)) idx st)
    as (l' & Hrun & Hlen' & Hk); [lia|lia|done|].
  exists l'. rewrite Hrun. cbn [mbind option_bind].
  cbn [todo_count selected with_todos with_todo_count].
  rewrite sint_id by int_range.
  split; [done|]. split; [done|].
  intros k. rewrite Hk.
  replace (Z.to_nat idx + Z.to_nat (todo_count st - 1 - idx))%nat
    with (Z.to_nat (todo_count st - 1)) by lia.
  done.
Qed.

(** C6. Deleting index [idx] of [n] records leaves [n - 1]: those below
    [idx] stay, those above move one index down.  A selection on the last
    record moves to the new last index, or stays at 0 when nothing is
    left; any other selection stays. *)
Theorem delete_todo_spec idx st :
  length (todos st) = Z.to_nat MAX_TODOS ->
  todo_count st <= MAX_TODOS ->
  0 <= idx < todo_count st ->
  0 <= selected st < todo_count st ->
  exists st', delete_todo idx st = Some st'
    /\ todo_count st' = todo_count st - 1
    /\ (forall j, 0 <= j < idx -> todos_at st' j = todos_at st j)
    /\ (forall j, idx <= j < todo_count st - 1 ->
                  todos_at st' j = todos_at st (j + 1))
    /\ (todo_count st' <= selected st ->
        (0 < todo_count st' -> selected st' = todo_count st' - 1)
        /\ (todo_count st' = 0 -> selected st' = 0))
    /\ (selected st < todo_count st' -> selected st' = selected st)
    /\ filter_category st' = filter_category st
    /\ filter_done st' = filter_done st
    /\ search_term st' = search_term st.
Proof.
  intros Hlen Hcnt Hidx Hsel.
  destruct (delete_todo_runs idx st) as (l' & Hrun & Hlen' & Hk);
    [lia|done|done|].
  eexists. split; [exact Hrun|]. cbn zeta.
  assert (Hat : forall j, 0 <= j < MAX_TODOS ->
            forall st1, todos st1 = l' ->
            todos_at st1 j
            = if decide (idx <= j < todo_count st - 1)
              then todos_at st (j + 1) else todos_at st j).
  { intros j Hj st1 Hst1. unfold todos_at, in_array. rewrite Hst1, Hk.
    destruct (Z.leb_spec 0 j), (Z.ltb_spec j MAX_TODOS); try lia. cbn.
    destruct (Z.leb_spec 0 (j + 1)), (Z.ltb_spec (j + 1) MAX_TODOS);
      cbn; repeat case_decide; try lia;
      try (replace (Z.to_nat (j + 1)) with (S (Z.to_nat j)) by lia); done. }
  destruct (Z.geb_spec (selected st) (todo_count st - 1)),
           (Z.gtb_spec (selected st) 0); cbn [andb];
    cbn [todo_count selected with_selected with_todo_count with_todos
         filter_category filter_done search_term];
    rewrite ?sint_id by int_range;
    (split; [done|]);
    (split; [intros j Hj; rewrite Hat by (done || lia);
             by rewrite decide_False by lia|]);
    (split; [intros j Hj; rewrite Hat by (done || lia);
             by rewrite decide_True by lia|]);
    repeat split; try done; lia.
Qed.

End Delete.

Lemma delete_todo_spec_witness :
  exists st', delete_todo 0 two_todos = Some st'
    /\ todo_count st' = todo_count two_todos - 1
    /\ (forall j, 0 <= j < 0 -> todos_at st' j = todos_at two_todos j)
    /\ (forall j, 0 <= j < todo_count two_todos - 1 ->
                  todos_at st' j = todos_at two_todos (j + 1))
    /\ (todo_count st' <= selected two_todos ->
        (0 < todo_count st' -> selected st' = todo_count st' - 1)
        /\ (todo_count st' = 0 -> selected st' = 0))
    /\ (selected two_todos < todo_count st' -> selected st' = selected two_todos)
    /\ filter_category st' = filter_category two_todos
    /\ filter_done st' = filter_done two_todos
    /\ search_term st' = search_term two_todos.
Proof.
  apply (delete_todo_spec 0 two_todos); vm_compute; try reflexivity;
    (split; congruence) || congruence.
Defined.

(** ** Due dates *)

Example scan_out_of_range_date :
  sscanf_d_d_d (bytes "2024-13-45") = [2024; 13; 45].
Proof. vm_compute. reflexivity. Qed.

Example scan_not_a_date : sscanf_d_d_d (bytes "not-a-date") = [].
Proof. vm_compute. reflexivity. Qed.

Example scan_two_parts : sscanf_d_d_d (bytes "2024-01") = [2024; 1].
Proof. vm_compute. reflexivity. Qed.

Example mktime_utc_normalises :
  mktime_utc (tm_of_date 2024 13 45) = mktime_utc (tm_of_date 2025 2 14)
  /\ mktime_utc (tm_of_date 2024 1 15) = 1705276800.
Proof. vm_compute. split; reflexivity. Qed.

(** *** Scanning a date: the code against the words *)

Section Scanning.

Lemma isspace_blank c : isspace c = bool_decide (blank c).
Proof. destruct c; vm_compute; reflexivity. Qed.

Lemma isdigit_digit_of c :
  digit_of c = if isdigit c then Some (byte.unsigned c - 48) else None.
Proof. destruct c; vm_compute; reflexivity. Qed.

Lemma digit_not_blank c v : digit_of c = Some v -> ~ blank c.
Proof.
  intros Hd Hb. apply (bool_decide_pack (blank c)) in Hb. revert Hd Hb.
  destruct c; vm_compute; intros Hd Hb; solve [discriminate | destruct Hb].
Qed.

Lemma skip_space_app w r :
  Forall blank w -> not_blank_ahead r -> skip_space (w ++ r) = r.
Proof.
  intros Hw Hr. induction Hw as [|c w Hc _ IH]; cbn [app].
  - destruct r as [|c r]; [done|]. cbn [skip_space not_blank_ahead] in *.
    rewrite isspace_blank. by rewrite bool_decide_false.
  - cbn [skip_space]. rewrite isspace_blank. by rewrite bool_decide_true.
Qed.

Lemma skip_space_split s :
  exists w, s = w ++ skip_space s /\ Forall blank w
            /\ not_blank_ahead (skip_space s).
Proof.
  induction s as [|c s (w & Hs & Hw & Hn)].
  - by exists [].
  - cbn [skip_space]. rewrite isspace_blank. case_bool_decide.
    + exists (c :: w). cbn [app]. split; [by f_equal|].
      split; [by constructor|done].
    + by exists [].
Qed.

Lemma digits_app acc ds rest v :
  decimal_from acc ds = Some v -> number_ends rest ->
  digits acc (ds ++ rest) = (v, rest).
Proof.
  revert acc. induction ds as [|c ds IH]; intros acc Hd Hr; cbn [app].
  - injection Hd as <-. destruct rest as [|c rest]; [done|].
    cbn [digits number_ends] in *. rewrite isdigit_digit_of in Hr.
    by destruct (isdigit c).
  - cbn [digits decimal_from] in *. rewrite isdigit_digit_of in Hd.
    destruct (isdigit c); [|done]. by apply IH.
Qed.

Lemma digits_split acc s :
  exists ds, s = ds ++ (digits acc s).2
             /\ decimal_from acc ds = Some (digits acc s).1
             /\ number_ends (digits acc s).2.
Proof.
  revert acc. induction s as [|c s IH]; intros acc.
  - by exists [].
  - cbn [digits]. pose proof (isdigit_digit_of c) as Hc.
    destruct (isdigit c).
    + destruct (IH (10 * acc + (byte.unsigned c - 48))) as (ds & Hs & Hd & Hr).
      exists (c :: ds). cbn [app decimal_from]. rewrite Hc.
      split; [by f_equal|done].
    + exists []. cbn. done.
Qed.

Lemma stored_int n : CInt.is_int n -> stored n = n.
Proof.
  intros Hn. unfold stored. rewrite Z.min_r, Z.max_r.
  - by apply sint_id.
  - unfold CInt.is_int, CInt.INT_MIN, CInt.LONG_MIN in *. lia.
  - unfold CInt.is_int, CInt.INT_MAX, CInt.LONG_MAX in *. lia.
Qed.

Lemma decimal_head ds n :
  decimal ds = Some n ->
  exists c ds' v, ds = c :: ds' /\ digit_of c = Some v
                  /\ decimal_from 0 ds = Some n.
Proof.
  destruct ds as [|c ds']; [done|]. cbn [decimal]. intros Hd.
  cbn [decimal_from] in Hd. destruct (digit_of c) as [v|] eqn:Hc; [|done].
  exists c, ds', v. split; [done|]. split; [done|].
  cbn [decimal_from]. by rewrite Hc.
Qed.

Lemma digit_no_sign c v :
  digit_of c = Some v -> Byte.eqb c Byte.x2d = false /\ Byte.eqb c Byte.x2b = false.
Proof. destruct c; vm_compute; intros; split; congruence. Qed.

(** One [%d] reads a numeric component, and only that. *)
Lemma scan_d_complete s n rest :
  component s n rest -> scan_d s = Some (stored n, rest).
Proof.
  intros (w & num & -> & Hw & Hnum & Hr). unfold scan_d.
  assert (Hdigits : forall ds k, decimal ds = Some k ->
            exists c ds', ds = c :: ds' /\ isdigit c = true
                          /\ digits 0 (ds ++ rest) = (k, rest)).
  { intros ds k Hd. destruct (decimal_head ds k Hd) as (c & ds' & v & -> & Hc & Hd').
    exists c, ds'. split; [done|]. split.
    - rewrite isdigit_digit_of in Hc. by destruct (isdigit c).
    - by apply digits_app. }
  destruct Hnum as [ds k Hd|ds k Hd|ds k Hd].
  - destruct (Hdigits ds k Hd) as (c & ds' & -> & Hc & Hdig).
    destruct (decimal_head _ _ Hd) as (c0 & ? & v & [= <- <-] & Hv & _).
    destruct (digit_no_sign c v Hv) as [Hm Hp].
    rewrite skip_space_app; [|done|by eapply digit_not_blank].
    cbn [app]. rewrite Hm, Hp, Hc. cbn [app] in Hdig. by rewrite Hdig.
  - destruct (Hdigits ds k Hd) as (c & ds' & -> & Hc & Hdig).
    rewrite skip_space_app;
      [|done|cbn; intros Hb; apply (bool_decide_pack _) in Hb; done].
    cbn [app]. change (Byte.eqb Byte.x2b Byte.x2d) with false.
    change (Byte.eqb Byte.x2b Byte.x2b) with true.
    cbn [app] in *. by rewrite Hc, Hdig.
  - destruct (Hdigits ds k Hd) as (c & ds' & -> & Hc & Hdig).
    rewrite skip_space_app;
      [|done|cbn; intros Hb; apply (bool_decide_pack _) in Hb; done].
    cbn [app]. change (Byte.eqb Byte.x2d Byte.x2d) with true.
    cbn [app] in *. by rewrite Hc, Hdig.
Qed.

Lemma scan_d_sound s v rest :
  scan_d s = Some (v, rest) -> exists n, component s n rest /\ v = stored n.
Proof.
  unfold scan_d. destruct (skip_space_split s) as (w & Hs & Hw & Hn).
  assert (Hnum : forall (s2 : list byte) (neg : bool),
            match s2 with
            | c :: _ =>
                if isdigit c then
                  let '(v0, rest0) := digits 0 s2 in
                  let v1 := if neg then - v0 else v0 in
                  Some (CInt.sint (Z.max CInt.LONG_MIN (Z.min CInt.LONG_MAX v1)),
                        rest0)
                else None
            | [] => None
            end = Some (v, rest) ->
            exists ds k, s2 = ds ++ rest /\ decimal ds = Some k
                         /\ number_ends rest
                         /\ v = stored (if neg then - k else k)).
  { intros s2 neg. destruct s2 as [|c s2']; [done|].
    destruct (isdigit c) eqn:Hc; [|done].
    destruct (digits_split 0 (c :: s2')) as (ds & Hs2 & Hd & Hr).
    destruct (digits 0 (c :: s2')) as [v0 rest0]. cbn [fst snd] in *.
    intros [= <- <-]. exists ds, v0. split; [done|]. split; [|done].
    destruct ds as [|c' ds']; [|done].
    cbn [app] in Hs2. subst rest0. cbn [number_ends] in Hr.
    rewrite isdigit_digit_of, Hc in Hr. done. }
  destruct (skip_space s) as [|c s1'] eqn:Hskip.
  - intros H. by destruct (Hnum [] false H) as (? & ? & ? & ?).
  - destruct (Byte.eqb c Byte.x2d) eqn:Hm.
    + apply Byte.byte_dec_bl in Hm as ->. intros H.
      destruct (Hnum _ true H) as (ds & k & -> & Hd & Hr & ->).
      exists (- k). split; [|done]. exists w, (Byte.x2d :: ds).
      split; [done|]. split; [done|]. split; [by constructor|done].
    + destruct (Byte.eqb c Byte.x2b) eqn:Hp.
      * apply Byte.byte_dec_bl in Hp as ->. intros H.
        destruct (Hnum _ false H) as (ds & k & -> & Hd & Hr & ->).
        exists k. split; [|done]. exists w, (Byte.x2b :: ds).
        split; [done|]. split; [done|]. split; [by constructor|done].
      * intros H.
        destruct (Hnum (c :: s1') false H) as (ds & k & Hds & Hd & Hr & ->).
        exists k. split; [|done]. exists w, ds.
        split; [by rewrite Hs, Hds|]. split; [done|].
        split; [by constructor|done].
Qed.

Lemma scan_dash_d s v rest :
  scan_dash s ≫= scan_d = Some (v, rest)
  <-> exists r, s = Byte.x2d :: r /\ scan_d r = Some (v, rest).
Proof.
  destruct s as [|c r]; cbn [scan_dash mbind option_bind].
  - split; [done|]. by intros (? & ? & ?).
  - destruct (Byte.eqb c Byte.x2d) eqn:E; cbn [mbind option_bind].
    + apply Byte.byte_dec_bl in E as ->. split; [eauto|].
      by intros (? & [= <-] & ?).
    + split; [done|]. intros (? & [= -> <-] & _). done.
Qed.

(** [sscanf] with ["%d-%d-%d"] makes three conversions exactly on the
    inputs that parse into three numeric components, and converts those
    numbers. *)
Lemma sscanf_date_text s y m d :
  date_text s y m d -> sscanf_d_d_d s = [stored y; stored m; stored d].
Proof.
  intros (r1 & r2 & r3 & H1 & H2 & H3). unfold sscanf_d_d_d.
  rewrite (scan_d_complete _ _ _ H1).
  assert (scan_dash (Byte.x2d :: r1) ≫= scan_d
          = Some (stored m, Byte.x2d :: r2)) as ->.
  { apply scan_dash_d. exists r1. split; [done|]. by apply scan_d_complete. }
  assert (scan_dash (Byte.x2d :: r2) ≫= scan_d = Some (stored d, r3)) as ->.
  { apply scan_dash_d. exists r2. split; [done|]. by apply scan_d_complete. }
  done.
Qed.

Lemma sscanf_three s :
  length (sscanf_d_d_d s) = 3%nat -> exists y m d, date_text s y m d.
Proof.
  unfold sscanf_d_d_d.
  destruct (scan_d s) as [[a s1]|] eqn:H1; [|done].
  destruct (scan_dash s1 ≫= scan_d) as [[b s2]|] eqn:H2; [|done].
  destruct (scan_dash s2 ≫= scan_d) as [[c s3]|] eqn:H3; [|done].
  intros _.
  apply scan_dash_d in H2 as (r1 & -> & H2).
  apply scan_dash_d in H3 as (r2 & -> & H3).
  apply scan_d_sound in H1 as (y & H1 & _).
  apply scan_d_sound in H2 as (m & H2 & _).
  apply scan_d_sound in H3 as (d & H3 & _).
  exists y, m, d, r1, r2, s3. done.
Qed.

End Scanning.

(** *** The operation *)

Section DueDateProofs.

Variable mktime : tm -> Z.

Lemma set_due_same t : set_due (due_date t) t = t.
Proof. by destruct t. Qed.

Lemma with_todos_same st : with_todos (todos st) st = st.
Proof. by destruct st. Qed.

(** [set_due_date] writes one field of one record. *)
Lemma set_due_date_runs idx line st t :
  todos_at st idx = Some t ->
  (length line < MAX_LENGTH)%nat ->
  exists d,
    set_due_date mktime idx line st
    = Some (with_todos (<[Z.to_nat idx := set_due d t]> (todos st)) st)
    /\ (CInt.is_long (due_date t) -> CInt.is_long d)
    /\ (cstr line = [] -> d = 0)
    /\ (cstr line <> [] ->
        forall year mon mday,
          sscanf_d_d_d (cstr line) = [year; mon; mday] ->
          d = CInt.slong (mktime (tm_of_date year mon mday)))
    /\ (cstr line <> [] -> length (sscanf_d_d_d (cstr line)) <> 3%nat ->
        d = due_date t).
Proof.
  intros Hat Hline. unfold set_due_date.
  rewrite getstr_fits by (by rewrite length_local_buffer).
  cbn [mbind option_bind].
  set (buf := line ++ NUL :: drop (S (length line)) local_buffer).
  assert (Hbuf : cstr buf = cstr line) by apply cstr_before_NUL.
  pose proof (proj1 (todos_at_Some _ _ _) Hat) as [Hidx Hl].
  assert (Hput : forall t',
    todos_put st idx t'
    = Some (with_todos (<[Z.to_nat idx := t']> (todos st)) st)).
  { intros t'. apply todos_put_valid; [done|]. by eapply lookup_lt_Some. }
  destruct (is_nul (hd NUL buf)) eqn:E.
  - apply cstr_nil_hd in E. rewrite Hbuf in E.
    exists 0. rewrite Hat. cbn [mbind option_bind]. rewrite Hput.
    repeat split; done.
  - assert (Hne : cstr line <> []).
    { intros Hnil. rewrite <- Hbuf in Hnil. apply cstr_nil_hd in Hnil.
      congruence. }
    rewrite Hbuf.
    destruct (sscanf_d_d_d (cstr line)) as [|y [|m [|d [|x rest]]]] eqn:Hscan.
    all: try solve
      [ exists (due_date t);
        rewrite set_due_same, list_insert_id, with_todos_same by done;
        repeat split; cbn; intros;
        first [congruence | unfold CInt.is_long in *; lia] ].
    exists (CInt.slong (mktime (tm_of_date y m d))).
    rewrite Hat. cbn [mbind option_bind]. rewrite Hput.
    split; [done|]. split; [intros _; apply slong_range|].
    repeat split; cbn; intros; congruence.
Qed.

(** C7. [set_due_date] on a slot of the array writes the due date of that
    record and nothing else.  For an empty input it writes 0.  For an
    input that parses into three numeric components, year '-' month '-'
    day, in range for a date or not, it writes the [mktime] of midnight
    of day [dd] of month [m - 1] counted from 0 of year [y - 1900], as
    long as the numbers fit an [int].  For any other input it writes
    the value that was there. *)
Theorem set_due_date_spec idx line st t :
  todos_at st idx = Some t ->
  (length line < MAX_LENGTH)%nat ->
  exists d,
    set_due_date mktime idx line st
    = Some (with_todos (<[Z.to_nat idx := set_due d t]> (todos st)) st)
    /\ (cstr line = [] -> d = 0)
    /\ (forall y m dd,
          date_text (cstr line) y m dd ->
          CInt.is_int y -> CInt.is_int m -> CInt.is_int dd ->
          CInt.is_int (y - 1900) -> CInt.is_int (m - 1) ->
          d = CInt.slong
                (mktime (mk_tm 0 0 0 dd (m - 1) (y - 1900) 0 0 0)))
    /\ (cstr line <> [] ->
        (forall y m dd, ~ date_text (cstr line) y m dd) ->
        d = due_date t).
Proof.
  intros Hat Hline.
  destruct (set_due_date_runs idx line st t Hat Hline)
    as (d & Hrun & _ & Hempty & Hdate & Hother).
  exists d. split; [done|]. split; [done|]. split.
  - intros y m dd Htext Hy Hm Hd Hy' Hm'.
    pose proof (sscanf_date_text _ _ _ _ Htext) as Hscan.
    rewrite !stored_int in Hscan by done.
    assert (Hne : cstr line <> []).
    { intros Hnil. rewrite Hnil in Hscan. discriminate Hscan. }
    rewrite (Hdate Hne y m dd Hscan). unfold tm_of_date.
    by rewrite !sint_id.
  - intros Hne Hno. apply Hother; [done|]. intros Hthree.
    destruct (sscanf_three _ Hthree) as (y & m & dd & Htext).
    by apply (Hno y m dd).
Qed.

End DueDateProofs.

Lemma set_due_date_spec_witness :
  date_text (bytes "2024-13-45") 2024 13 45
  /\ set_due_date mktime_utc 0 (bytes "2024-13-45") two_todos
     = Some (with_todos
               (<[0%nat := set_due 1739491200 buy_milk]> (todos two_todos))
               two_todos).
Proof.
  assert (Htext : date_text (bytes "2024-13-45") 2024 13 45).
  { exists (bytes "13-45"), (bytes "45"), [].
    split; [|split].
    - exists [], (bytes "2024"). split; [reflexivity|].
      split; [constructor|]. split; [|reflexivity].
      apply number_plain. reflexivity.
    - exists [], (bytes "13"). split; [reflexivity|].
      split; [constructor|]. split; [|reflexivity].
      apply number_plain. reflexivity.
    - exists [], (bytes "45"). split; [reflexivity|].
      split; [constructor|]. split; [|exact I].
      apply number_plain. reflexivity. }
  split; [exact Htext|].
  destruct (set_due_date_spec mktime_utc 0 (bytes "2024-13-45") two_todos
              buy_milk) as (d & Hrun & _ & Hdate & _).
  - vm_compute. reflexivity.
  - vm_compute. lia.
  - rewrite Hrun. specialize (Hdate 2024 13 45).
    change (cstr (bytes "2024-13-45")) with (bytes "2024-13-45") in Hdate.
    rewrite Hdate; [reflexivity|exact Htext|..]; vm_compute; split; congruence.
Defined.

(** ** Invariants of the key-dispatch loop *)

Section Invariants.

Variable mktime : tm -> Z.

Lemma wf_Todo_text t src :
  wf_Todo t -> wf_Todo (set_text (strncpy (text t) src (MAX_LENGTH - 1)) t).
Proof.
  intros [(Htl & Hrest) (Htn & Hcn)].
  destruct (strncpy_buffer (text t) src Htl Htn) as (Hl & Hn & _).
  destruct Hrest as (? & ? & ? & ?). by wf_split.
Qed.

Lemma wf_Todo_category t src :
  wf_Todo t ->
  wf_Todo (set_category_buf (strncpy (category t) src (MAX_LENGTH - 1)) t).
Proof.
  intros [(Htl & Hcl & Hrest) (Htn & Hcn)].
  destruct (strncpy_buffer (category t) src Hcl Hcn) as (Hl & Hn & _).
  destruct Hrest as (? & ? & ?). by wf_split.
Qed.

Lemma wf_Todo_clear_category t t' :
  wf_Todo t -> wf_Todo t' ->
  wf_Todo (set_category_buf (<[0%nat := NUL]> (category t)) t').
Proof.
  intros [(_ & Hcl & _) (_ & Hcn)] [(Htl & _ & ? & ? & ?) (Htn & _)].
  wf_split; fields; try done.
  - by rewrite length_insert.
  - by rewrite list_lookup_insert_ne.
Qed.

Lemma wf_Todo_due t d : wf_Todo t -> CInt.is_long d -> wf_Todo (set_due d t).
Proof. intros [(? & ? & ? & ? & ?) [? ?]] Hd. by wf_split. Qed.

Lemma wf_Todo_done t v : wf_Todo t -> CInt.is_int v -> wf_Todo (set_done v t).
Proof. intros [(? & ? & ? & ? & ?) [? ?]] Hd. by wf_split. Qed.

Lemma keeps_same st : shape st -> sel_inv st -> keeps st st.
Proof. by intros ? ?. Qed.

(** Rewriting one record keeps the shape and the selection. *)
Lemma keeps_insert st idx t t' :
  shape st -> sel_inv st -> todos_at st idx = Some t ->
  (wf_Todo t -> wf_Todo t') ->
  keeps st (with_todos (<[Z.to_nat idx := t']> (todos st)) st).
Proof.
  intros (Hlen & Hrest) Hsel Hat Ht.
  apply (proj1 (todos_at_Some _ _ _)) in Hat as [_ Hl].
  split; [|split; [done|]]; fields.
  - split; fields; [by rewrite length_insert|done].
  - intros Hall. apply Forall_insert; [done|].
    apply Ht. by eapply Forall_lookup_1.
Qed.

(** Reading a record, changing it and writing it back. *)
Lemma update_record st idx t (f : Todo -> Todo) :
  todos_at st idx = Some t ->
  todos_at st idx ≫= (fun t => todos_put st idx (f t))
  = Some (with_todos (<[Z.to_nat idx := f t]> (todos st)) st).
Proof.
  intros Hat. rewrite Hat. cbn [mbind option_bind].
  apply (proj1 (todos_at_Some _ _ _)) in Hat as [Hidx Hl].
  apply todos_put_valid; [done|]. by eapply lookup_lt_Some.
Qed.

Lemma selected_record st :
  shape st -> sel_inv st -> 0 < todo_count st ->
  exists t, todos_at st (selected st) = Some t.
Proof.
  intros (Hlen & Hcnt & _) Hsel Hpos.
  apply todos_at_valid; [done|]. specialize (Hsel Hpos). lia.
Qed.

Lemma toggle_todo_inv st :
  shape st -> sel_inv st -> 0 < todo_count st ->
  exists st', toggle_todo (selected st) st = Some st' /\ keeps st st'.
Proof.
  intros Hsh Hsel Hpos.
  destruct (selected_record st) as (t & Hat); [done..|].
  unfold toggle_todo. erewrite update_record by done.
  eexists. split; [done|]. eapply keeps_insert; [done..|].
  intros Ht. apply wf_Todo_done; [done|].
  destruct (done t =? 0); int_range.
Qed.

Lemma edit_todo_inv line st :
  shape st -> sel_inv st -> 0 < todo_count st ->
  (length line < MAX_LENGTH)%nat ->
  exists st', edit_todo (selected st) line st = Some st' /\ keeps st st'.
Proof.
  intros Hsh Hsel Hpos Hline.
  destruct (selected_record st) as (t & Hat); [done..|].
  unfold edit_todo.
  rewrite getstr_fits by (by rewrite length_local_buffer).
  cbn [mbind option_bind].
  destruct (negb _); [|by exists st].
  erewrite update_record by done.
  eexists. split; [done|]. eapply keeps_insert; [done..|].
  apply wf_Todo_text.
Qed.

Lemma set_category_inv line st :
  shape st -> sel_inv st -> 0 < todo_count st ->
  (length line < MAX_LENGTH)%nat ->
  exists st', set_category (selected st) line st = Some st' /\ keeps st st'.
Proof.
  intros Hsh Hsel Hpos Hline.
  destruct (selected_record st) as (t & Hat); [done..|].
  unfold set_category.
  rewrite getstr_fits by (by rewrite length_local_buffer).
  cbn [mbind option_bind].
  erewrite update_record by done.
  eexists. split; [done|]. eapply keeps_insert; [done..|].
  apply wf_Todo_category.
Qed.

Lemma set_due_date_inv line st :
  shape st -> sel_inv st -> 0 < todo_count st ->
  (length line < MAX_LENGTH)%nat ->
  exists st', set_due_date mktime (selected st) line st = Some st'
              /\ keeps st st'.
Proof.
  intros Hsh Hsel Hpos Hline.
  destruct (selected_record st) as (t & Hat); [done..|].
  destruct (set_due_date_runs mktime (selected st) line st t Hat Hline)
    as (d & Hrun & Hd & _).
  eexists. split; [exact Hrun|]. eapply keeps_insert; [done..|].
  intros Ht. apply wf_Todo_due; [done|].
  apply Hd. by destruct Ht as [(_ & _ & ? & _) _].
Qed.

Lemma add_todo_inv line st :
  shape st -> sel_inv st -> (length line < MAX_LENGTH)%nat ->
  exists st', add_todo line st = Some st' /\ keeps st st'.
Proof.
  intros Hsh Hsel Hline.
  pose proof Hsh as (Hlen & Hcnt & Hint & Hfc & Hfd & Hst).
  destruct (decide (cstr line <> [] /\ todo_count st < MAX_TODOS))
    as [[Hne Hroom]|Hno].
  - destruct (todos_at_valid st (todo_count st)) as [t Hat]; [done|lia|].
    rewrite (add_todo_accepts line st t) by (done || lia).
    eexists. split; [done|].
    rewrite !sint_id by (rewrite ?sint_id; int_range).
    wf_split; fields; try done; try lia; try int_range.
    + by rewrite length_insert.
    + intros _. fields. lia.
    + intros Hall. apply Forall_insert; [done|].
      apply (proj1 (todos_at_Some _ _ _)) in Hat as [_ Hl].
      pose proof (Forall_lookup_1 _ _ _ _ Hall Hl) as Ht.
      apply wf_Todo_done; [|int_range]. apply wf_Todo_due.
      * apply wf_Todo_clear_category; [done|]. by apply wf_Todo_text.
      * vm_compute. split; congruence.
  - exists st. rewrite add_todo_rejects; [done|done|].
    destruct (decide (cstr line = [])); [by left|right].
    destruct (decide (todo_count st < MAX_TODOS)); [|lia].
    exfalso. auto.
Qed.

Lemma delete_todo_inv st :
  shape st -> sel_inv st -> 0 < todo_count st ->
  exists st', delete_todo (selected st) st = Some st' /\ keeps st st'.
Proof.
  intros Hsh Hsel Hpos.
  pose proof Hsh as (Hlen & Hcnt & Hint & Hfc & Hfd & Hst).
  specialize (Hsel Hpos).
  destruct (delete_todo_runs (selected st) st) as (l' & Hrun & Hlen' & Hk);
    [lia|lia|done|].
  eexists. split; [exact Hrun|]. cbn zeta.
  assert (Hall' : Forall wf_Todo (todos st) -> Forall wf_Todo l').
  { intros Hall. apply Forall_lookup_2. intros k t. rewrite Hk.
    case_decide; intros Hl; by eapply Forall_lookup_1. }
  destruct (Z.geb_spec (selected st) (todo_count st - 1)),
           (Z.gtb_spec (selected st) 0); cbn [andb];
    rewrite ?sint_id by int_range;
    wf_split; fields;
    first [done | congruence | lia | int_range | intros ?; fields; lia].
Qed.

Lemma filter_by_category_inv line st :
  shape st -> (length line < MAX_LENGTH)%nat ->
  exists st', filter_by_category line st = Some st' /\ keeps st st'.
Proof.
  intros (Hlen & Hcnt & Hint & Hfc & Hfd & Hst) Hline.
  unfold filter_by_category.
  rewrite getstr_fits by (by rewrite Hfc). cbn [mbind option_bind].
  eexists. split; [done|].
  wf_split; fields; try done; try lia; try int_range.
  all: try (rewrite length_app; cbn; rewrite length_drop; lia).
  all: try (intros ?; fields; lia).
Qed.

Lemma search_todos_inv line st :
  shape st -> (length line < MAX_LENGTH)%nat ->
  exists st', search_todos line st = Some st' /\ keeps st st'.
Proof.
  intros (Hlen & Hcnt & Hint & Hfc & Hfd & Hst) Hline.
  unfold search_todos.
  rewrite getstr_fits by (by rewrite Hst). cbn [mbind option_bind].
  eexists. split; [done|].
  wf_split; fields; try done; try lia; try int_range.
  all: try (rewrite length_app; cbn; rewrite length_drop; lia).
  all: try (intros ?; fields; lia).
Qed.

Lemma filter_by_status_inv st : shape st -> keeps st (filter_by_status st).
Proof.
  intros (Hlen & Hcnt & Hint & Hfc & Hfd & Hst). unfold filter_by_status.
  wf_split; fields; try done; try lia; try apply sint_range;
    try int_range.
  all: try (intros ?; fields; lia).
Qed.

Lemma reset_filters_inv st :
  shape st -> sel_inv st -> keeps st (reset_filters st).
Proof.
  intros (Hlen & Hcnt & Hint & Hfc & Hfd & Hst) Hsel. unfold reset_filters.
  wf_split; fields; rewrite ?length_insert; try done; try lia; int_range.
Qed.

(** Every branch of the [switch] runs to completion on a store of the
    right shape and hands on shape, selection and proper strings. *)
Lemma dispatch_inv ch line st :
  shape st -> sel_inv st -> (length line < MAX_LENGTH)%nat ->
  exists st', dispatch mktime ch line st = Some st' /\ keeps st st'.
Proof.
  intros Hsh Hsel Hline. unfold dispatch.
  pose proof Hsh as (Hlen & Hcnt & Hint & Hfc & Hfd & Hst).
  assert (Hgt : forall st',
    (exists st'', (if todo_count st >? 0 then st' else Some st) = Some st''
                  /\ keeps st st'')
    <-> (0 < todo_count st -> exists st'', st' = Some st'' /\ keeps st st'')).
  { intros st'. destruct (Z.gtb_spec (todo_count st) 0); split; auto.
    - lia.
    - intros _. by exists st. }
  destruct ((ch =? key_j) || (ch =? KEY_DOWN)).
  { rewrite sint_id by int_range.
    destruct (Z.ltb_spec (selected st) (todo_count st - 1)); [|by exists st].
    eexists. split; [done|]. rewrite sint_id by int_range.
    wf_split; fields; try done; try lia; try int_range.
    intros Hpos. fields. specialize (Hsel Hpos). lia. }
  destruct ((ch =? key_k) || (ch =? KEY_UP)).
  { destruct (Z.gtb_spec (selected st) 0); [|by exists st].
    eexists. split; [done|]. rewrite sint_id by int_range.
    wf_split; fields; try done; try lia; try int_range.
    intros Hpos. fields. specialize (Hsel Hpos). lia. }
  destruct (ch =? key_a); [by apply add_todo_inv|].
  destruct (ch =? key_d); [apply Hgt; by apply delete_todo_inv|].
  destruct (ch =? key_space); [apply Hgt; by apply toggle_todo_inv|].
  destruct (ch =? key_e); [apply Hgt; intros; by apply edit_todo_inv|].
  destruct (ch =? key_D); [apply Hgt; intros; by apply set_due_date_inv|].
  destruct (ch =? key_c); [apply Hgt; intros; by apply set_category_inv|].
  destruct (ch =? key_C); [by apply filter_by_category_inv|].
  destruct (ch =? key_f).
  { eexists. split; [done|]. by apply filter_by_status_inv. }
  destruct (ch =? key_slash); [by apply search_todos_inv|].
  destruct (ch =? key_r).
  { eexists. split; [done|]. by apply reset_filters_inv. }
  by exists st.
Qed.

(** C9. Whatever key is pressed, the operation it starts runs to
    completion and leaves the selection on a record of the store whenever
    the store has one: navigation, Add, Delete, the edits of the selected
    record and the filter operations all keep [0 <= selected < todo_count]
    when [todo_count] is positive. *)
Theorem dispatch_keeps_selection ch line st :
  shape st -> sel_inv st -> (length line < MAX_LENGTH)%nat ->
  exists st', dispatch mktime ch line st = Some st' /\ sel_inv st'.
Proof.
  intros Hsh Hsel Hline.
  destruct (dispatch_inv ch line st Hsh Hsel Hline) as (st' & Hrun & _ & Hs & _).
  eauto.
Qed.

(** The invariants hold at start-up and along the whole loop. *)
Lemma initial_state_inv : wf_State initial_state /\ sel_inv initial_state.
Proof.
  split; [|intros H; cbn in H; lia].
  apply (bool_decide_unpack _). vm_compute. exact I.
Qed.

Lemma loop_inv keys st :
  Forall (fun k => (length k.2 < MAX_LENGTH)%nat) keys ->
  shape st -> sel_inv st ->
  exists st', loop mktime keys st = Some st' /\ keeps st st'.
Proof.
  intros Hkeys. revert st.
  induction Hkeys as [|[ch line] keys Hline _ IH]; intros st Hsh Hsel.
  - by exists st.
  - cbn [loop]. destruct (ch =? key_q); [by exists st|].
    destruct (dispatch_inv ch line st Hsh Hsel Hline)
      as (st1 & -> & Hsh1 & Hsel1 & Hwf1).
    cbn [mbind option_bind].
    destruct (IH st1 Hsh1 Hsel1) as (st2 & Hrun & Hsh2 & Hsel2 & Hwf2).
    exists st2. split; [done|]. split; [done|]. split; [done|]. auto.
Qed.

(** Every state the loop reaches from the initial one is well formed. *)
Lemma loop_from_start keys :
  Forall (fun k => (length k.2 < MAX_LENGTH)%nat) keys ->
  exists st', loop mktime keys initial_state = Some st'
              /\ wf_State st' /\ sel_inv st'.
Proof.
  intros Hkeys. destruct initial_state_inv as [[Hsh Hall] Hsel].
  destruct (loop_inv keys initial_state Hkeys Hsh Hsel)
    as (st' & Hrun & Hsh' & Hsel' & Hwf').
  exists st'. split; [done|]. split; [|done]. split; auto.
Qed.

End Invariants.

(** The end-to-end scenario of the specification through the key loop:
    'a' Buy milk, 'a' Call Bob, 'k' to move up to the first record, 'c'
    Errands, 'C' errands.  One row is shown, that of record 0. *)
Example end_to_end :
  visible <$> loop mktime_utc
                [(key_a, bytes "Buy milk"); (key_a, bytes "Call Bob");
                 (key_k, []); (key_c, bytes "Errands");
                 (key_C, bytes "errands")]
                initial_state
  = Some [0].
Proof. vm_compute. reflexivity. Qed.

(** Three presses of 'f' at start-up leave the completion filter at
    'all'. *)
Example status_key_three_times :
  filter_done <$> loop mktime_utc [(key_f, []); (key_f, []); (key_f, [])]
                    initial_state
  = Some (-1).
Proof. vm_compute. reflexivity. Qed.

Lemma shape_two_todos : shape two_todos.
Proof. apply (bool_decide_unpack _). vm_compute. exact I. Defined.

Lemma sel_inv_two_todos : sel_inv two_todos.
Proof. apply (bool_decide_unpack _). vm_compute. exact I. Defined.

Lemma dispatch_keeps_selection_witness :
  exists st', dispatch mktime_utc key_d (bytes "") two_todos = Some st'
              /\ sel_inv st'.
Proof.
  apply (dispatch_keeps_selection mktime_utc key_d (bytes "") two_todos).
  - exact shape_two_todos.
  - exact sel_inv_two_todos.
  - vm_compute. lia.
Defined.

(** ** Persistence *)

Section Persistence.

Lemma length_to_bytes n z : length (CInt.to_bytes n z) = n.
Proof. apply length_le_split. Qed.

Lemma of_to_bytes_int z :
  CInt.is_int z -> CInt.of_bytes (CInt.to_bytes 4 z) = z.
Proof.
  intros Hz. unfold CInt.of_bytes. rewrite length_to_bytes.
  unfold CInt.to_bytes. rewrite le_combine_split. unfold CInt.swrap.
  change (Z.of_nat 4 * 8) with 32. change (8 * Z.of_nat 4) with 32.
  rewrite Z.add_mod_idemp_l by done.
  unfold CInt.is_int, CInt.INT_MIN, CInt.INT_MAX in Hz.
  change (32 - 1) with 31. change (2 ^ 32) with (2 * 2 ^ 31).
  rewrite Z.mod_small; lia.
Qed.

Lemma of_to_bytes_long z :
  CInt.is_long z -> CInt.of_bytes (CInt.to_bytes 8 z) = z.
Proof.
  intros Hz. unfold CInt.of_bytes. rewrite length_to_bytes.
  unfold CInt.to_bytes. rewrite le_combine_split. unfold CInt.swrap.
  change (Z.of_nat 8 * 8) with 64. change (8 * Z.of_nat 8) with 64.
  rewrite Z.add_mod_idemp_l by done.
  unfold CInt.is_long, CInt.LONG_MIN, CInt.LONG_MAX in Hz.
  change (64 - 1) with 63. change (2 ^ 64) with (2 * 2 ^ 63).
  rewrite Z.mod_small; lia.
Qed.

Lemma length_encode_Todo t :
  has_layout t -> length (encode_Todo t) = Z.to_nat sizeof_Todo.
Proof.
  intros (Ht & Hc & _ & _ & Hp). unfold encode_Todo.
  rewrite !length_app, !length_to_bytes, Ht, Hc, Hp. done.
Qed.

(** Reading back the bytes of a record gives the record. *)
Lemma decode_encode_Todo t :
  has_layout t -> decode_Todo (encode_Todo t) = t.
Proof.
  destruct t as [tx ca du dn pd]. unfold has_layout, MAX_LENGTH.
  intros (Ht & Hc & Hdu & Hdn & Hp). cbn [text category due_date done pad] in *.
  unfold decode_Todo, encode_Todo, MAX_LENGTH.
  cbn [text category due_date done pad].
  change 268%nat with (128 + (128 + (8 + 4)))%nat.
  change 264%nat with (128 + (128 + 8))%nat.
  change 256%nat with (128 + 128)%nat.
  rewrite !(drop_app_add' tx) by done.
  rewrite !(drop_app_add' ca) by done.
  rewrite !(drop_app_add' (CInt.to_bytes 8 du))
    by (by rewrite length_to_bytes).
  rewrite (drop_app_length' tx) by done.
  rewrite (drop_app_length' ca) by done.
  rewrite (drop_app_length' (CInt.to_bytes 8 du))
    by (by rewrite length_to_bytes).
  rewrite (drop_app_length' (CInt.to_bytes 4 dn))
    by (by rewrite length_to_bytes).
  rewrite (take_app_length' tx) by done.
  rewrite (take_app_length' ca) by done.
  rewrite (take_app_length' (CInt.to_bytes 8 du))
    by (by rewrite length_to_bytes).
  rewrite (take_app_length' (CInt.to_bytes 4 dn))
    by (by rewrite length_to_bytes).
  rewrite take_ge by lia.
  by rewrite of_to_bytes_long, of_to_bytes_int.
Qed.

Lemma todos_bytes_app l1 l2 :
  todos_bytes (l1 ++ l2) = todos_bytes l1 ++ todos_bytes l2.
Proof. unfold todos_bytes. by rewrite map_app, concat_app. Qed.

Lemma length_todos_bytes l :
  Forall has_layout l ->
  length (todos_bytes l) = (Z.to_nat sizeof_Todo * length l)%nat.
Proof.
  induction 1 as [|t l Ht _ IH]; [done|].
  change (todos_bytes (t :: l)) with (encode_Todo t ++ todos_bytes l).
  rewrite length_app, length_encode_Todo, IH by done. cbn [length]. lia.
Qed.

Lemma todos_of_bytes_app l n bs :
  Forall has_layout l ->
  todos_of_bytes (length l + n) (todos_bytes l ++ bs)
  = l ++ todos_of_bytes n bs.
Proof.
  induction 1 as [|t l Ht _ IH]; [done|].
  change (todos_bytes (t :: l)) with (encode_Todo t ++ todos_bytes l).
  rewrite <- app_assoc. cbn [length Nat.add todos_of_bytes].
  rewrite take_app_length' by (by rewrite length_encode_Todo).
  rewrite drop_app_length' by (by rewrite length_encode_Todo).
  by rewrite decode_encode_Todo, IH.
Qed.

Lemma todos_of_bytes_all l :
  Forall has_layout l -> todos_of_bytes (length l) (todos_bytes l) = l.
Proof.
  intros Hl. pose proof (todos_of_bytes_app l 0 [] Hl) as H.
  by rewrite Nat.add_0_r, !app_nil_r in H.
Qed.

Lemma take_todos_bytes n l :
  Forall has_layout l -> (n <= length l)%nat ->
  take (Z.to_nat sizeof_Todo * n) (todos_bytes l) = todos_bytes (take n l).
Proof.
  intros Hl Hn. rewrite <- (take_drop n l) at 1.
  rewrite todos_bytes_app. apply take_app_length'.
  rewrite length_todos_bytes by (by apply Forall_take).
  by rewrite length_take, Nat.min_l.
Qed.

Lemma drop_todos_bytes n l :
  Forall has_layout l -> (n <= length l)%nat ->
  drop (Z.to_nat sizeof_Todo * n) (todos_bytes l) = todos_bytes (drop n l).
Proof.
  intros Hl Hn. rewrite <- (take_drop n l) at 1.
  rewrite todos_bytes_app. apply drop_app_length'.
  rewrite length_todos_bytes by (by apply Forall_take).
  by rewrite length_take, Nat.min_l.
Qed.

Lemma request_small size nmemb :
  0 <= size * nmemb < 2 ^ 64 -> request size nmemb = size * nmemb.
Proof. intros H. unfold request. by rewrite Z.mod_small. Qed.

(** What [save_todos] writes for a store within capacity. *)
Lemma save_todos_file st old :
  length (todos st) = Z.to_nat MAX_TODOS -> Forall has_layout (todos st) ->
  0 <= todo_count st <= MAX_TODOS ->
  save_todos true st old
  = Some (Some (CInt.to_bytes 4 (todo_count st)
                ++ todos_bytes (take (Z.to_nat (todo_count st)) (todos st)))).
Proof.
  intros Hlen Hall Hcnt. unfold save_todos, fwrite, MAX_TODOS, sizeof_Todo in *.
  rewrite !request_small by lia.
  rewrite length_to_bytes, length_todos_bytes, Hlen by done.
  change (4 * 1 <=? Z.of_nat 4) with true. cbn [mbind option_bind].
  destruct (Z.leb_spec (272 * todo_count st)
              (Z.of_nat (Z.to_nat sizeof_Todo * Z.to_nat 100)));
    [|unfold sizeof_Todo in *; lia].
  cbn [mbind option_bind].
  rewrite take_ge by (by rewrite length_to_bytes).
  replace (Z.to_nat (272 * todo_count st))
    with (Z.to_nat sizeof_Todo * Z.to_nat (todo_count st))%nat
    by (unfold sizeof_Todo; lia).
  by rewrite take_todos_bytes by (done || lia).
Qed.

(** What [load_todos] does with a file that has its header and announces
    [n] records within capacity, whatever follows the header: the count
    is [n], and the bytes that follow are laid over the array as far as
    they go. *)
Lemma load_todos_header st header rest :
  length (todos st) = Z.to_nat MAX_TODOS -> Forall has_layout (todos st) ->
  length header = 4%nat ->
  0 <= CInt.of_bytes header <= MAX_TODOS ->
  let n := CInt.of_bytes header in
  let got := Z.to_nat (Z.min (sizeof_Todo * n) (Z.of_nat (length rest))) in
  load_todos (Some (header ++ rest)) st
  = Some (with_todos
            (todos_of_bytes (length (todos st))
               (take got rest ++ drop got (todos_bytes (todos st))))
            (with_todo_count n st)).
Proof.
  intros Hlen Hall Hh Hn n got. unfold load_todos, fread.
  rewrite request_small by lia.
  rewrite length_app, Hh, length_to_bytes.
  replace (Z.to_nat (Z.min (4 * 1) (Z.of_nat (4 + length rest)))) with 4%nat
    by lia.
  cbn [Nat.leb mbind option_bind].
  rewrite take_app_length', drop_app_length' by done.
  rewrite drop_ge by (by rewrite length_to_bytes).
  rewrite app_nil_r. cbn [todo_count with_todo_count todos].
  fold n. rewrite request_small by (unfold sizeof_Todo, MAX_TODOS in *; lia).
  fold got.
  rewrite length_todos_bytes, Hlen by done.
  destruct (Nat.leb_spec got (Z.to_nat sizeof_Todo * Z.to_nat MAX_TODOS));
    [done|].
  unfold got, sizeof_Todo, MAX_TODOS in *. lia.
Qed.

Lemma fread_eof mem size nmemb : fread mem size nmemb [] = Some (mem, []).
Proof.
  unfold fread. cbn [length Z.of_nat].
  rewrite Z.min_r by (unfold request; by apply Z.mod_pos_bound).
  done.
Qed.

(** C3. Saving a store of at most 100 records whose fields have their
    declared sizes, and loading the file into any such array, gives the
    count that was saved and, at every index below it, the record that
    was saved, byte for byte. *)
Theorem load_save_roundtrip st st0 old :
  length (todos st) = Z.to_nat MAX_TODOS -> Forall has_layout (todos st) ->
  0 <= todo_count st <= MAX_TODOS ->
  length (todos st0) = Z.to_nat MAX_TODOS -> Forall has_layout (todos st0) ->
  exists data st',
    save_todos true st old = Some (Some data)
    /\ load_todos (Some data) st0 = Some st'
    /\ todo_count st' = todo_count st
    /\ (forall i, 0 <= i < todo_count st -> todos_at st' i = todos_at st i)
    /\ (forall i t, 0 <= i < todo_count st -> todos_at st i = Some t ->
          (encode_Todo <$> todos_at st' i) = Some (encode_Todo t)).
Proof.
  intros Hlen Hall Hcnt Hlen0 Hall0.
  rewrite (save_todos_file st old) by done.
  set (n := Z.to_nat (todo_count st)).
  assert (Hn : (n <= length (todos st))%nat)
    by (unfold n, MAX_TODOS in *; lia).
  assert (Hsaved : length (todos_bytes (take n (todos st)))
                   = (Z.to_nat sizeof_Todo * n)%nat).
  { rewrite length_todos_bytes by (by apply Forall_take).
    by rewrite length_take, Nat.min_l. }
  assert (Hhdr : CInt.of_bytes (CInt.to_bytes 4 (todo_count st))
                 = todo_count st).
  { apply of_to_bytes_int. int_range. }
  eexists. eexists. split; [reflexivity|].
  rewrite load_todos_header;
    [|done|done|apply length_to_bytes|by rewrite Hhdr].
  rewrite Hhdr.
  replace (Z.to_nat (Z.min (sizeof_Todo * todo_count st)
             (Z.of_nat (length (todos_bytes (take n (todos st)))))))
    with (Z.to_nat sizeof_Todo * n)%nat
    by (rewrite Hsaved; unfold n, sizeof_Todo; lia).
  rewrite take_ge by lia.
  rewrite drop_todos_bytes by (done || lia).
  rewrite <- todos_bytes_app.
  assert (Hlen' : length (take n (todos st) ++ drop n (todos st0))
                  = length (todos st0)).
  { rewrite length_app, length_take, length_drop. lia. }
  rewrite <- Hlen', todos_of_bytes_all
    by (apply Forall_app; split; [by apply Forall_take|by apply Forall_drop]).
  split; [reflexivity|]. split; [done|].
  assert (Hsame : forall i, 0 <= i < todo_count st ->
    todos_at (with_todos (take n (todos st) ++ drop n (todos st0))
                (with_todo_count (todo_count st) st0)) i
    = todos_at st i).
  { intros i Hi. unfold todos_at. cbn [todos with_todos].
    destruct (in_array i); [|done].
    rewrite lookup_app_l by (rewrite length_take; unfold n; lia).
    apply lookup_take_lt. unfold n. lia. }
  split; [done|].
  intros i t Hi Hat. by rewrite Hsame, Hat.
Qed.

(** C4, as the code has it.  A missing file leaves the state as it is, so
    the store is empty at start-up.  A file that holds its 4-byte header
    never makes [load_todos] fail as long as the header announces between
    0 and 100 records, truncated or not; the count is then the announced
    number, which is 0 only if the header says so.  An empty file leaves
    count and records as they are. *)
Theorem load_todos_lenient st header rest :
  length (todos st) = Z.to_nat MAX_TODOS -> Forall has_layout (todos st) ->
  0 <= todo_count st <= MAX_TODOS ->
  length header = 4%nat ->
  0 <= CInt.of_bytes header <= MAX_TODOS ->
  load_todos None st = Some st
  /\ load_todos (Some []) st = Some st
  /\ exists st',
       load_todos (Some (header ++ rest)) st = Some st'
       /\ todo_count st' = CInt.of_bytes header
       /\ selected st' = selected st
       /\ length (todos st') = length (todos st).
Proof.
  intros Hlen Hall Hcnt Hh Hn. split; [done|]. split.
  - unfold load_todos. rewrite fread_eof. cbn [mbind option_bind].
    rewrite fread_eof. cbn [mbind option_bind].
    rewrite of_to_bytes_int by int_range.
    cbn [todos with_todo_count].
    rewrite todos_of_bytes_all by done. by destruct st.
  - rewrite load_todos_header by done.
    eexists. split; [reflexivity|]. cbn [todo_count selected todos with_todos
      with_todo_count]. repeat split.
    clear. generalize (length (todos st)). intros k.
    match goal with |- length (todos_of_bytes k ?bs) = k =>
      generalize bs end.
    induction k as [|k IH]; intros bs; [done|].
    cbn [todos_of_bytes length]. by rewrite IH.
Qed.

End Persistence.

(** The counterexample to C4 as stated: a file of four bytes whose header
    announces one record is truncated, and loading it at start-up leaves
    the count at 1, not at 0. *)
Lemma load_todos_truncated_counts :
  truncated [Byte.x01; Byte.x00; Byte.x00; Byte.x00]
  /\ exists st',
       load_todos (Some [Byte.x01; Byte.x00; Byte.x00; Byte.x00]) initial_state
       = Some st'
       /\ todo_count st' = 1 /\ todo_count st' <> 0.
Proof.
  split.
  - vm_compute. reflexivity.
  - eexists. split; [vm_compute; reflexivity|]. cbn. split; [done|lia].
Qed.

Lemma layout_two_todos : Forall has_layout (todos two_todos).
Proof. apply (bool_decide_unpack _). vm_compute. exact I. Defined.

Lemma layout_initial_state : Forall has_layout (todos initial_state).
Proof. apply (bool_decide_unpack _). vm_compute. exact I. Defined.

Lemma load_save_roundtrip_witness :
  exists data st',
    save_todos true two_todos None = Some (Some data)
    /\ load_todos (Some data) initial_state = Some st'
    /\ todo_count st' = todo_count two_todos
    /\ (forall i, 0 <= i < todo_count two_todos ->
                  todos_at st' i = todos_at two_todos i)
    /\ (forall i t, 0 <= i < todo_count two_todos ->
          todos_at two_todos i = Some t ->
          (encode_Todo <$> todos_at st' i) = Some (encode_Todo t)).
Proof.
  apply (load_save_roundtrip two_todos initial_state None).
  - vm_compute. reflexivity.
  - exact layout_two_todos.
  - vm_compute. split; congruence.
  - vm_compute. reflexivity.
  - exact layout_initial_state.
Defined.

Lemma load_todos_lenient_witness :
  load_todos None initial_state = Some initial_state
  /\ load_todos (Some []) initial_state = Some initial_state
  /\ exists st',
       load_todos (Some ([Byte.x01; Byte.x00; Byte.x00; Byte.x00] ++ []))
         initial_state = Some st'
       /\ todo_count st'
          = CInt.of_bytes [Byte.x01; Byte.x00; Byte.x00; Byte.x00]
       /\ selected st' = selected initial_state
       /\ length (todos st') = length (todos initial_state).
Proof.
  apply (load_todos_lenient initial_state
           [Byte.x01; Byte.x00; Byte.x00; Byte.x00] []).
  - vm_compute. reflexivity.
  - exact layout_initial_state.
  - vm_compute. split; congruence.
  - vm_compute. reflexivity.
  - vm_compute. split; congruence.
Defined.

(** ** Operations on one record *)

Section RecordOps.

(** X1. [toggle_todo] on a slot of the array rewrites the completion flag
    of that record only: it becomes 1 if it was 0 and 0 otherwise.  On a
    flag that is 0 or 1 a second toggle gives back the state. *)
Theorem toggle_todo_flips idx st t :
  todos_at st idx = Some t ->
  exists st1,
    toggle_todo idx st = Some st1
    /\ todos_at st1 idx = Some (set_done (if done t =? 0 then 1 else 0) t)
    /\ (forall j, j <> idx -> todos_at st1 j = todos_at st j)
    /\ todo_count st1 = todo_count st /\ selected st1 = selected st
    /\ (flag_ok t -> toggle_todo idx st1 = Some st).
Proof.
  intros Hat. pose proof (proj1 (todos_at_Some _ _ _) Hat) as [Hidx Hl].
  pose proof (lookup_lt_Some _ _ _ Hl) as Hlt.
  unfold toggle_todo at 1. rewrite (update_record st idx t) by done.
  eexists. split; [reflexivity|].
  split; [by apply todos_at_insert_eq|].
  split; [intros j Hj; apply todos_at_insert_ne; [lia|done]|].
  split; [done|]. split; [done|].
  intros Hflag. unfold toggle_todo.
  erewrite update_record by (by apply todos_at_insert_eq).
  f_equal. cbn [todos with_todos]. rewrite with_todos_twice.
  rewrite list_insert_insert_eq.
  replace (set_done _ (set_done _ t)) with t.
  - by rewrite list_insert_id, with_todos_same.
  - destruct t as [tx ca du dn pd]. cbn. f_equal.
    destruct Hflag as [Hd|Hd]; cbn in Hd; by subst.
Qed.

(** X2. [edit_todo] with a non-empty input replaces the text of the record
    by the input and leaves its other fields and all other records alone;
    with an empty input it changes nothing. *)
Theorem edit_todo_spec idx line st t :
  todos_at st idx = Some t -> wf_Todo t ->
  (length line < MAX_LENGTH)%nat ->
  exists st',
    edit_todo idx line st = Some st'
    /\ (cstr line = [] -> st' = st)
    /\ (cstr line <> [] ->
        exists t', todos_at st' idx = Some t'
          /\ cstr (text t') = cstr line
          /\ category t' = category t /\ due_date t' = due_date t
          /\ done t' = done t /\ pad t' = pad t)
    /\ (forall j, j <> idx -> todos_at st' j = todos_at st j)
    /\ todo_count st' = todo_count st /\ selected st' = selected st.
Proof.
  intros Hat [(Htl & _) (Htn & _)] Hline.
  pose proof (proj1 (todos_at_Some _ _ _) Hat) as [Hidx Hl].
  pose proof (lookup_lt_Some _ _ _ Hl) as Hlt.
  unfold edit_todo.
  rewrite getstr_fits by (by rewrite length_local_buffer).
  cbn [mbind option_bind].
  set (buf := line ++ NUL :: drop (S (length line)) local_buffer).
  assert (Hbuf : cstr buf = cstr line) by apply cstr_before_NUL.
  destruct (is_nul (hd NUL buf)) eqn:E; cbn [negb].
  - apply cstr_nil_hd in E. rewrite Hbuf in E.
    exists st. repeat split; try done.
  - assert (Hne : cstr line <> []).
    { intros Hnil. rewrite <- Hbuf in Hnil. apply cstr_nil_hd in Hnil.
      congruence. }
    rewrite (update_record st idx t) by done.
    eexists. split; [reflexivity|]. split; [done|].
    split; [|split; [intros j Hj; apply todos_at_insert_ne; [lia|done]|done]].
    intros _. eexists. split; [by apply todos_at_insert_eq|].
    cbn [text category due_date done pad set_text]. repeat split.
    destruct (strncpy_buffer (text t) buf Htl Htn) as (_ & _ & ->).
    rewrite Hbuf. apply take_ge. pose proof (length_cstr line).
    unfold MAX_LENGTH in *. lia.
Qed.

(** X3. [set_category] replaces the category of the record by the input,
    whatever it is: an empty input leaves the record without category.
    The other fields and all other records stay. *)
Theorem set_category_spec idx line st t :
  todos_at st idx = Some t -> wf_Todo t ->
  (length line < MAX_LENGTH)%nat ->
  exists st' t',
    set_category idx line st = Some st'
    /\ todos_at st' idx = Some t'
    /\ cstr (category t') = cstr line
    /\ text t' = text t /\ due_date t' = due_date t
    /\ done t' = done t /\ pad t' = pad t
    /\ (forall j, j <> idx -> todos_at st' j = todos_at st j)
    /\ todo_count st' = todo_count st /\ selected st' = selected st.
Proof.
  intros Hat [(_ & Hcl & _) (_ & Hcn)] Hline.
  pose proof (proj1 (todos_at_Some _ _ _) Hat) as [Hidx Hl].
  pose proof (lookup_lt_Some _ _ _ Hl) as Hlt.
  unfold set_category.
  rewrite getstr_fits by (by rewrite length_local_buffer).
  cbn [mbind option_bind].
  set (buf := line ++ NUL :: drop (S (length line)) local_buffer).
  assert (Hbuf : cstr buf = cstr line) by apply cstr_before_NUL.
  rewrite (update_record st idx t) by done.
  eexists. eexists. split; [reflexivity|].
  split; [by apply todos_at_insert_eq|].
  cbn [text category due_date done pad set_category_buf].
  split; [|repeat split; try done;
           intros j Hj; apply todos_at_insert_ne; [lia|done]].
  destruct (strncpy_buffer (category t) buf Hcl Hcn) as (_ & _ & ->).
  rewrite Hbuf. apply take_ge. pose proof (length_cstr line).
  unfold MAX_LENGTH in *. lia.
Qed.

End RecordOps.

Lemma wf_buy_milk : wf_Todo buy_milk.
Proof. apply (bool_decide_unpack _). vm_compute. exact I. Defined.

Lemma toggle_todo_flips_witness :
  exists st1,
    toggle_todo 0 two_todos = Some st1
    /\ todos_at st1 0
       = Some (set_done (if done buy_milk =? 0 then 1 else 0) buy_milk)
    /\ (forall j, j <> 0 -> todos_at st1 j = todos_at two_todos j)
    /\ todo_count st1 = todo_count two_todos
    /\ selected st1 = selected two_todos
    /\ (flag_ok buy_milk -> toggle_todo 0 st1 = Some two_todos).
Proof.
  apply (toggle_todo_flips 0 two_todos buy_milk). vm_compute. reflexivity.
Defined.

Lemma edit_todo_spec_witness :
  exists st',
    edit_todo 0 (bytes "Buy oat milk") two_todos = Some st'
    /\ (cstr (bytes "Buy oat milk") = [] -> st' = two_todos)
    /\ (cstr (bytes "Buy oat milk") <> [] ->
        exists t', todos_at st' 0 = Some t'
          /\ cstr (text t') = cstr (bytes "Buy oat milk")
          /\ category t' = category buy_milk
          /\ due_date t' = due_date buy_milk
          /\ done t' = done buy_milk /\ pad t' = pad buy_milk)
    /\ (forall j, j <> 0 -> todos_at st' j = todos_at two_todos j)
    /\ todo_count st' = todo_count two_todos
    /\ selected st' = selected two_todos.
Proof.
  apply (edit_todo_spec 0 (bytes "Buy oat milk") two_todos buy_milk).
  - vm_compute. reflexivity.
  - exact wf_buy_milk.
  - vm_compute. lia.
Defined.

Lemma set_category_spec_witness :
  exists st' t',
    set_category 0 (bytes "") two_todos = Some st'
    /\ todos_at st' 0 = Some t'
    /\ cstr (category t') = cstr (bytes "")
    /\ text t' = text buy_milk /\ due_date t' = due_date buy_milk
    /\ done t' = done buy_milk /\ pad t' = pad buy_milk
    /\ (forall j, j <> 0 -> todos_at st' j = todos_at two_todos j)
    /\ todo_count st' = todo_count two_todos
    /\ selected st' = selected two_todos.
Proof.
  apply (set_category_spec 0 (bytes "") two_todos buy_milk).
  - vm_compute. reflexivity.
  - exact wf_buy_milk.
  - vm_compute. lia.
Defined.

(** ** Navigation and undoing an Add *)

Section Navigation.

Variable mktime : tm -> Z.

(** X4. The down keys move the selection one index down unless it is on
    the last record (or the store is empty), the up keys one index up
    unless it is at 0 or below; neither touches anything else.  From a
    selection that is not the last, down followed by up gives back the
    state. *)
Theorem navigation_spec line st :
  0 <= todo_count st <= MAX_TODOS -> CInt.is_int (selected st) ->
  (forall ch, ch = key_j \/ ch = KEY_DOWN ->
     dispatch mktime ch line st
     = Some (if selected st <? todo_count st - 1
             then with_selected (selected st + 1) st else st))
  /\ (forall ch, ch = key_k \/ ch = KEY_UP ->
     dispatch mktime ch line st
     = Some (if selected st >? 0
             then with_selected (selected st - 1) st else st))
  /\ (0 <= selected st < todo_count st - 1 ->
      dispatch mktime key_j line st ≫= dispatch mktime key_k line = Some st).
Proof.
  intros Hcnt Hint.
  assert (Hdown : forall ch, ch = key_j \/ ch = KEY_DOWN ->
     dispatch mktime ch line st
     = Some (if selected st <? todo_count st - 1
             then with_selected (selected st + 1) st else st)).
  { intros ch [->| ->]; cbn; rewrite sint_id by int_range;
      destruct (Z.ltb_spec (selected st) (todo_count st - 1)); try done;
      by rewrite sint_id by int_range. }
  split; [done|]. split.
  - intros ch [->| ->]; cbn;
      destruct (Z.gtb_spec (selected st) 0); try done;
      by rewrite sint_id by int_range.
  - intros Hsel. rewrite Hdown by auto.
    destruct (Z.ltb_spec (selected st) (todo_count st - 1)); [|lia].
    cbn. destruct (Z.gtb_spec (selected st + 1) 0); [|lia].
    rewrite sint_id by int_range.
    replace (selected st + 1 - 1) with (selected st) by lia.
    by destruct st.
Qed.

(** X5. An Add that is accepted, followed at once by 'd', gives back the
    store: the count and every record below it are as before the Add, the
    filter is untouched, and the selection is on the last record (or 0 in
    an empty store). *)
Theorem add_then_delete line st :
  wf_State st -> (length line < MAX_LENGTH)%nat ->
  cstr line <> [] -> todo_count st < MAX_TODOS ->
  exists st1 st2,
    dispatch mktime key_a line st = Some st1
    /\ dispatch mktime key_d [] st1 = Some st2
    /\ todo_count st1 = todo_count st + 1
    /\ todo_count st2 = todo_count st
    /\ (forall i, 0 <= i < todo_count st -> todos_at st2 i = todos_at st i)
    /\ selected st2 = Z.max 0 (todo_count st - 1)
    /\ filter_category st2 = filter_category st
    /\ filter_done st2 = filter_done st
    /\ search_term st2 = search_term st.
Proof.
  intros [Hsh Hall] Hline Hne Hroom.
  pose proof Hsh as (Hlen & Hcnt & Hint & _).
  destruct (todos_at_valid st (todo_count st)) as [t Hat]; [done|lia|].
  change (dispatch mktime key_a line st) with (add_todo line st).
  rewrite (add_todo_accepts line st t) by (done || lia).
  rewrite !sint_id by (rewrite ?sint_id; int_range).
  replace (todo_count st + 1 - 1) with (todo_count st) by lia.
  set (st1 := with_selected _ _).
  assert (Hc1 : todo_count st1 = todo_count st + 1) by done.
  assert (Hs1 : selected st1 = todo_count st) by done.
  assert (Hl1 : length (todos st1) = length (todos st))
    by (unfold st1; cbn [todos with_selected with_todo_count with_todos];
        by rewrite length_insert).
  destruct (delete_todo_runs (selected st1) st1) as (l' & Hrun & Hlen' & Hk);
    [lia|lia|lia|].
  assert (Hd : dispatch mktime key_d [] st1 = delete_todo (selected st1) st1).
  { change (dispatch mktime key_d [] st1)
      with (if todo_count st1 >? 0 then delete_todo (selected st1) st1
            else Some st1).
    by destruct (Z.gtb_spec (todo_count st1) 0); [|lia]. }
  rewrite Hrun in Hd. cbn zeta in Hd. rewrite Hc1, Hs1 in Hd.
  replace (todo_count st + 1 - 1) with (todo_count st) in Hd by lia.
  assert (Hrec : forall st2, todos st2 = l' ->
            forall i, 0 <= i < todo_count st -> todos_at st2 i = todos_at st i).
  { intros st2 Hst2 i Hi. unfold todos_at. rewrite Hst2, Hk, Hs1, Hc1.
    rewrite decide_False by lia.
    destruct (in_array i); [|done].
    unfold st1. cbn [todos with_selected with_todo_count with_todos].
    apply list_lookup_insert_ne. lia. }
  exists st1. eexists. split; [reflexivity|]. split; [exact Hd|].
  destruct (Z.geb_spec (todo_count st) (todo_count st)); [|lia].
  destruct (Z.gtb_spec (todo_count st) 0); cbn [andb];
    cbn [todo_count selected with_selected with_todo_count with_todos
         filter_category filter_done search_term];
    rewrite ?sint_id by int_range;
    (split; [done|]); (split; [done|]); (split; [by apply Hrec|]);
    (split; [|done]).
  - lia.
  - unfold st1. cbn [selected with_selected]. lia.
Qed.

End Navigation.

Lemma navigation_spec_witness :
  (forall ch, ch = key_j \/ ch = KEY_DOWN ->
     dispatch mktime_utc ch [] (with_selected 0 two_todos)
     = Some (if selected (with_selected 0 two_todos)
                <? todo_count (with_selected 0 two_todos) - 1
             then with_selected (selected (with_selected 0 two_todos) + 1)
                    (with_selected 0 two_todos)
             else with_selected 0 two_todos))
  /\ (forall ch, ch = key_k \/ ch = KEY_UP ->
     dispatch mktime_utc ch [] (with_selected 0 two_todos)
     = Some (if selected (with_selected 0 two_todos) >? 0
             then with_selected (selected (with_selected 0 two_todos) - 1)
                    (with_selected 0 two_todos)
             else with_selected 0 two_todos))
  /\ (0 <= selected (with_selected 0 two_todos)
      < todo_count (with_selected 0 two_todos) - 1 ->
      dispatch mktime_utc key_j [] (with_selected 0 two_todos)
      ≫= dispatch mktime_utc key_k [] = Some (with_selected 0 two_todos)).
Proof.
  apply (navigation_spec mktime_utc [] (with_selected 0 two_todos)).
  - vm_compute. split; congruence.
  - vm_compute. split; congruence.
Defined.

Lemma add_then_delete_witness :
  exists st1 st2,
    dispatch mktime_utc key_a (bytes "Feed cat") two_todos = Some st1
    /\ dispatch mktime_utc key_d [] st1 = Some st2
    /\ todo_count st1 = todo_count two_todos + 1
    /\ todo_count st2 = todo_count two_todos
    /\ (forall i, 0 <= i < todo_count two_todos ->
                  todos_at st2 i = todos_at two_todos i)
    /\ selected st2 = Z.max 0 (todo_count two_todos - 1)
    /\ filter_category st2 = filter_category two_todos
    /\ filter_done st2 = filter_done two_todos
    /\ search_term st2 = search_term two_todos.
Proof.
  apply (add_then_delete mktime_utc (bytes "Feed cat") two_todos).
  - exact wf_two_todos.
  - vm_compute. lia.
  - vm_compute. congruence.
  - vm_compute. reflexivity.
Defined.

(** ** What holds in every state of a session *)

Section Session.

Variable mktime : tm -> Z.

Lemma strncpy_nonempty dst src n :
  cstr src <> [] -> cstr (strncpy dst src (S n)) <> [].
Proof.
  unfold strncpy. pose proof (cstr_no_nul src) as Hno.
  destruct (cstr src) as [|c s] eqn:E; [done|]. intros _.
  cbn [app take cstr].
  assert (is_nul c = false) as ->; [|done].
  apply is_nul_false. intros ->. apply Hno. left.
Qed.

Lemma named_same_store st st' :
  todos st' = todos st -> todo_count st' = todo_count st ->
  named st -> named st'.
Proof.
  intros Ht Hc Hn i t Hi Hat. apply (Hn i t); [lia|].
  unfold todos_at in *. by rewrite <- Ht.
Qed.

(** Rewriting a record of the store by one that has a text and a proper
    flag. *)
Lemma records_insert st idx t' :
  0 <= idx -> cstr (text t') <> [] -> flag_ok t' ->
  named st -> Forall flag_ok (todos st) ->
  let st' := with_todos (<[Z.to_nat idx := t']> (todos st)) st in
  named st' /\ Forall flag_ok (todos st').
Proof.
  intros Hidx Htext Hflag Hn Hall st'. split.
  - intros i t Hi Hat. destruct (decide (i = idx)) as [->|Hne].
    + apply (proj1 (todos_at_Some _ _ _)) in Hat as [Hin Hl].
      cbn [todos with_todos st'] in Hl.
      destruct (decide (Z.to_nat idx < length (todos st))%nat).
      * rewrite list_lookup_insert_eq in Hl by done. by injection Hl as <-.
      * rewrite list_insert_ge in Hl by lia.
        apply (Hn idx t); [done|]. by apply todos_at_Some.
    + unfold st' in Hat. rewrite todos_at_insert_ne in Hat by done.
      by apply (Hn i t).
  - by apply Forall_insert.
Qed.

(** One key keeps a text in every record of the store and a flag of 0 or
    1 in every slot of the array. *)
Lemma dispatch_records ch line st st' :
  shape st -> sel_inv st -> (length line < MAX_LENGTH)%nat ->
  named st -> Forall flag_ok (todos st) ->
  dispatch mktime ch line st = Some st' ->
  named st' /\ Forall flag_ok (todos st').
Proof.
  intros Hsh Hsel Hline Hn Hall.
  pose proof Hsh as (Hlen & Hcnt & Hint & Hfc & Hfd & Hst).
  assert (Hsame : forall st1, todos st1 = todos st ->
            todo_count st1 = todo_count st ->
            named st1 /\ Forall flag_ok (todos st1)).
  { intros st1 Ht Hc. split; [by eapply named_same_store|by rewrite Ht]. }
  assert (Hupd : forall (f : Todo -> Todo) t,
            0 < todo_count st -> todos_at st (selected st) = Some t ->
            (cstr (text t) <> [] -> cstr (text (f t)) <> []) ->
            (flag_ok t -> flag_ok (f t)) ->
            let st1 := with_todos (<[Z.to_nat (selected st) := f t]> (todos st)) st in
            named st1 /\ Forall flag_ok (todos st1)).
  { intros f t Hpos Hat Htext Hflag. specialize (Hsel Hpos).
    apply records_insert; try done; [lia| |].
    - apply Htext. by apply (Hn (selected st) t).
    - apply Hflag. apply (proj1 (todos_at_Some _ _ _)) in Hat as [_ Hl].
      by eapply Forall_lookup_1. }
  unfold dispatch.
  destruct ((ch =? key_j) || (ch =? KEY_DOWN)).
  { intros [= <-]. destruct (_ <? _); by apply Hsame. }
  destruct ((ch =? key_k) || (ch =? KEY_UP)).
  { intros [= <-]. destruct (_ >? _); by apply Hsame. }
  destruct (ch =? key_a).
  { destruct (decide (cstr line <> [] /\ todo_count st < MAX_TODOS))
      as [[Hne Hroom]|Hno].
    - destruct (todos_at_valid st (todo_count st)) as [t Hat]; [done|lia|].
      rewrite (add_todo_accepts line st t) by (done || lia).
      rewrite !sint_id by (rewrite ?sint_id; int_range).
      intros [= <-]. split.
      + intros i t' Hi Hat'.
        cbn [todo_count with_selected with_todo_count with_todos] in Hi.
        destruct (decide (i = todo_count st)) as [->|Hne'].
        * apply (proj1 (todos_at_Some _ _ _)) in Hat' as [_ Hl].
          cbn [todos with_selected with_todo_count with_todos] in Hl.
          rewrite list_lookup_insert_eq in Hl
            by (rewrite Hlen; unfold MAX_TODOS in *; lia).
          injection Hl as <-. cbn [text set_done set_due set_category_buf set_text].
          apply strncpy_nonempty. by rewrite cstr_before_NUL.
        * apply (Hn i t'); [lia|].
          rewrite <- Hat'. symmetry.
          apply (todos_at_insert_ne st (todo_count st)); [lia|done].
      + cbn [todos with_selected with_todo_count with_todos].
        apply Forall_insert; [done|]. by left.
    - rewrite add_todo_rejects; [by intros [= <-]|done|].
      destruct (decide (cstr line = [])); [by left|right].
      destruct (decide (todo_count st < MAX_TODOS)); [|lia].
      exfalso. auto. }
  destruct (ch =? key_d).
  { destruct (Z.gtb_spec (todo_count st) 0) as [Hpos|]; [|by intros [= <-]].
    specialize (Hsel Hpos).
    destruct (delete_todo_runs (selected st) st) as (l' & Hrun & Hlen' & Hk);
      [lia|lia|done|].
    rewrite Hrun. cbn zeta. intros [= <-].
    assert (Hrec : forall st1, todos st1 = l' ->
              todo_count st1 = todo_count st - 1 ->
              named st1 /\ Forall flag_ok (todos st1)).
    { intros st1 Ht Hc. split.
      - intros i t Hi Hat.
        apply (proj1 (todos_at_Some _ _ _)) in Hat as [Hin Hl].
        rewrite Ht, Hk in Hl. case_decide.
        + apply (Hn (i + 1) t); [lia|]. apply todos_at_Some.
          split; [unfold MAX_TODOS in *; lia|].
          by replace (Z.to_nat (i + 1)) with (S (Z.to_nat i)) by lia.
        + apply (Hn i t); [lia|]. by apply todos_at_Some.
      - rewrite Ht. apply Forall_lookup_2. intros k t. rewrite Hk.
        case_decide; intros Hl; by eapply Forall_lookup_1. }
    destruct (_ && _); by apply Hrec. }
  destruct (ch =? key_space).
  { destruct (Z.gtb_spec (todo_count st) 0) as [Hpos|]; [|by intros [= <-]].
    destruct (selected_record st) as (t & Hat); [done..|].
    unfold toggle_todo. rewrite (update_record st _ t) by done.
    intros [= <-]. apply Hupd; try done.
    intros _. destruct (done t =? 0); [by right|by left]. }
  destruct (ch =? key_e).
  { destruct (Z.gtb_spec (todo_count st) 0) as [Hpos|]; [|by intros [= <-]].
    destruct (selected_record st) as (t & Hat); [done..|].
    unfold edit_todo.
    rewrite getstr_fits by (by rewrite length_local_buffer).
    cbn [mbind option_bind].
    set (buf := line ++ NUL :: drop (S (length line)) local_buffer).
    destruct (is_nul (hd NUL buf)) eqn:E; cbn [negb];
      [intros [= <-]; by apply Hsame|].
    assert (Hne : cstr buf <> []).
    { intros Hnil. apply (proj2 (cstr_nil_hd _)) in Hnil. congruence. }
    clearbody buf.
    rewrite (update_record st _ t) by done.
    intros [= <-]. apply Hupd; try done.
    intros _. cbn [text set_text]. by apply strncpy_nonempty. }
  destruct (ch =? key_D).
  { destruct (Z.gtb_spec (todo_count st) 0) as [Hpos|]; [|by intros [= <-]].
    destruct (selected_record st) as (t & Hat); [done..|].
    destruct (set_due_date_runs mktime (selected st) line st t Hat Hline)
      as (d & Hrun & _).
    rewrite Hrun. intros [= <-]. by apply (Hupd (set_due d) t). }
  destruct (ch =? key_c).
  { destruct (Z.gtb_spec (todo_count st) 0) as [Hpos|]; [|by intros [= <-]].
    destruct (selected_record st) as (t & Hat); [done..|].
    unfold set_category.
    rewrite getstr_fits by (by rewrite length_local_buffer).
    cbn [mbind option_bind]. rewrite (update_record st _ t) by done.
    intros [= <-]. by apply Hupd. }
  destruct (ch =? key_C).
  { unfold filter_by_category. rewrite getstr_fits by (by rewrite Hfc).
    cbn [mbind option_bind]. intros [= <-]. by apply Hsame. }
  destruct (ch =? key_f); [intros [= <-]; by apply Hsame|].
  destruct (ch =? key_slash).
  { unfold search_todos. rewrite getstr_fits by (by rewrite Hst).
    cbn [mbind option_bind]. intros [= <-]. by apply Hsame. }
  destruct (ch =? key_r); intros [= <-]; by apply Hsame.
Qed.

(** The whole loop, from any state that has the shape, the selection and
    the records right. *)
Lemma loop_records keys st :
  Forall (fun k => (length k.2 < MAX_LENGTH)%nat) keys ->
  shape st -> sel_inv st -> named st -> Forall flag_ok (todos st) ->
  exists st', loop mktime keys st = Some st' /\ keeps st st'
              /\ named st' /\ Forall flag_ok (todos st').
Proof.
  intros Hkeys. revert st.
  induction Hkeys as [|[ch line] keys Hline _ IH];
    intros st Hsh Hsel Hn Hfl.
  - by exists st.
  - cbn [loop]. destruct (ch =? key_q); [by exists st|].
    destruct (dispatch_inv mktime ch line st Hsh Hsel Hline)
      as (st1 & Hrun & Hsh1 & Hsel1 & Hwf1).
    destruct (dispatch_records ch line st st1) as [Hn1 Hfl1]; [done..|].
    rewrite Hrun. cbn [mbind option_bind].
    destruct (IH st1) as (st2 & Hrun2 & (Hsh2 & Hsel2 & Hwf2) & Hn2 & Hfl2);
      [done..|].
    exists st2. split; [done|]. split; [|done].
    split; [done|]. split; [done|]. auto.
Qed.

Lemma initial_state_records :
  named initial_state /\ Forall flag_ok (todos initial_state).
Proof.
  split.
  - intros i t Hi. cbn in Hi. lia.
  - apply (bool_decide_unpack _). vm_compute. exact I.
Qed.

(** X6. Started on an empty store, the key loop never leaves the array and
    never overfills it: whatever keys are pressed and whatever is typed at
    the prompts (within the prompt buffer), the loop runs to its end, the
    count stays between 0 and 100, every buffer of every record stays
    NUL-terminated, and the selection stays on a record whenever there is
    one. *)
Theorem session_stays_in_bounds keys :
  Forall (fun k => (length k.2 < MAX_LENGTH)%nat) keys ->
  exists st',
    loop mktime keys initial_state = Some st'
    /\ 0 <= todo_count st' <= MAX_TODOS
    /\ length (todos st') = Z.to_nat MAX_TODOS
    /\ Forall wf_Todo (todos st')
    /\ sel_inv st'.
Proof.
  intros Hkeys. destruct initial_state_inv as [[Hsh Hall] Hsel].
  destruct (loop_inv mktime keys initial_state Hkeys Hsh Hsel)
    as (st' & Hrun & (Hlen & Hcnt & _) & Hsel' & Hwf').
  exists st'. split; [done|]. split; [done|]. split; [done|].
  split; [auto|done].
Qed.

(** X7. Started on an empty store, no record of the store ever has an
    empty text: Add and Edit refuse an empty input and nothing else
    writes a text. *)
Theorem session_texts_never_empty keys :
  Forall (fun k => (length k.2 < MAX_LENGTH)%nat) keys ->
  exists st',
    loop mktime keys initial_state = Some st'
    /\ forall i t, 0 <= i < todo_count st' -> todos_at st' i = Some t ->
                   cstr (text t) <> [].
Proof.
  intros Hkeys. destruct initial_state_inv as [[Hsh Hall] Hsel].
  destruct initial_state_records as [Hn Hfl].
  destruct (loop_records keys initial_state Hkeys Hsh Hsel Hn Hfl)
    as (st' & Hrun & _ & Hn' & _).
  by exists st'.
Qed.

(** X8. Started on an empty store, the completion flag of every record is
    0 or 1 at all times, so every record of the store is either pending
    or done. *)
Theorem session_flags_boolean keys :
  Forall (fun k => (length k.2 < MAX_LENGTH)%nat) keys ->
  exists st',
    loop mktime keys initial_state = Some st'
    /\ forall i t, todos_at st' i = Some t -> done t = 0 \/ done t = 1.
Proof.
  intros Hkeys. destruct initial_state_inv as [[Hsh Hall] Hsel].
  destruct initial_state_records as [Hn Hfl].
  destruct (loop_records keys initial_state Hkeys Hsh Hsel Hn Hfl)
    as (st' & Hrun & _ & _ & Hfl').
  exists st'. split; [done|]. intros i t Hat.
  apply (proj1 (todos_at_Some _ _ _)) in Hat as [_ Hl].
  by apply (Forall_lookup_1 _ _ _ _ Hfl' Hl).
Qed.

End Session.

Lemma sample_keys_short :
  Forall (fun k => (length k.2 < MAX_LENGTH)%nat) sample_keys.
Proof. apply (bool_decide_unpack _). vm_compute. exact I. Defined.

Lemma session_stays_in_bounds_witness :
  exists st',
    loop mktime_utc sample_keys initial_state = Some st'
    /\ 0 <= todo_count st' <= MAX_TODOS
    /\ length (todos st') = Z.to_nat MAX_TODOS
    /\ Forall wf_Todo (todos st')
    /\ sel_inv st'.
Proof.
  apply (session_stays_in_bounds mktime_utc sample_keys).
  exact sample_keys_short.
Defined.

Lemma session_texts_never_empty_witness :
  exists st',
    loop mktime_utc sample_keys initial_state = Some st'
    /\ forall i t, 0 <= i < todo_count st' -> todos_at st' i = Some t ->
                   cstr (text t) <> [].
Proof.
  apply (session_texts_never_empty mktime_utc sample_keys).
  exact sample_keys_short.
Defined.

Lemma session_flags_boolean_witness :
  exists st',
    loop mktime_utc sample_keys initial_state = Some st'
    /\ forall i t, todos_at st' i = Some t -> done t = 0 \/ done t = 1.
Proof.
  apply (session_flags_boolean mktime_utc sample_keys).
  exact sample_keys_short.
Defined.

(** ** The store operations and the filter *)

Section StoreAndFilter.

Variable mktime : tm -> Z.

Lemma todos_put_filters f st idx t :
  todos_put (with_filters_of f st) idx t
  = with_filters_of f <$> todos_put st idx t.
Proof. unfold todos_put. cbn [todos with_filters_of]. by destruct (_ && _). Qed.

Lemma update_filters f st idx (g : Todo -> Todo) :
  todos_at (with_filters_of f st) idx
    ≫= (fun t => todos_put (with_filters_of f st) idx (g t))
  = with_filters_of f
      <$> (todos_at st idx ≫= (fun t => todos_put st idx (g t))).
Proof.
  change (todos_at (with_filters_of f st) idx) with (todos_at st idx).
  destruct (todos_at st idx) as [t|]; [|done]. apply todos_put_filters.
Qed.

Lemma shift_left_filters f n i st :
  shift_left n i (with_filters_of f st)
  = with_filters_of f <$> shift_left n i st.
Proof.
  revert i st. induction n as [|n IH]; intros i st; [done|].
  cbn [shift_left].
  change (todos_at (with_filters_of f st) (i + 1)) with (todos_at st (i + 1)).
  destruct (todos_at st (i + 1)) as [t|]; [|done]. cbn [mbind option_bind].
  rewrite todos_put_filters.
  destruct (todos_put st i t) as [st1|]; [|done]. apply IH.
Qed.

(** X9. The keys that move the selection or change the store act on the
    unfiltered store: for every key other than 'C', 'f', '/' and 'r', what
    the key does to records, count and selection is the same under any
    filter, and it leaves the filter as it is.  In particular 'j' and 'k'
    step through records the filter hides, and 'd', space, 'e', 'c' and 'D'
    act on the selected record whether it is shown or not. *)
Theorem store_keys_ignore_filter f ch line st :
  store_key ch = true ->
  dispatch mktime ch line (with_filters_of f st)
  = with_filters_of f <$> dispatch mktime ch line st.
Proof.
  unfold store_key. rewrite negb_true_iff, !orb_false_iff.
  intros [[[HC Hf] Hs] Hr]. unfold dispatch. rewrite HC, Hf, Hs, Hr.
  cbn [todo_count selected with_filters_of].
  destruct ((ch =? key_j) || (ch =? KEY_DOWN)); [by destruct (_ <? _)|].
  destruct ((ch =? key_k) || (ch =? KEY_UP)); [by destruct (_ >? _)|].
  destruct (ch =? key_a).
  { unfold add_todo. destruct (getstr local_buffer line) as [buf|]; [|done].
    cbn [mbind option_bind todo_count with_filters_of].
    destruct (_ && _); [|done].
    change (todos_at (with_filters_of f st) (todo_count st))
      with (todos_at st (todo_count st)).
    destruct (todos_at st (todo_count st)) as [t|]; [|done].
    cbn [mbind option_bind]. rewrite todos_put_filters.
    by destruct (todos_put st (todo_count st) _). }
  destruct (ch =? key_d).
  { destruct (todo_count st >? 0); [|done].
    unfold delete_todo. cbn [todo_count with_filters_of].
    rewrite shift_left_filters.
    destruct (shift_left _ (selected st) st) as [st1|]; [|done].
    cbn [fmap option_fmap option_map mbind option_bind
         todo_count selected with_filters_of with_todo_count].
    by destruct (_ && _). }
  destruct (ch =? key_space).
  { destruct (todo_count st >? 0); [|done]. apply update_filters. }
  destruct (ch =? key_e).
  { destruct (todo_count st >? 0); [|done]. unfold edit_todo.
    destruct (getstr local_buffer line) as [buf|]; [|done].
    cbn [mbind option_bind]. destruct (negb _); [|done].
    apply update_filters. }
  destruct (ch =? key_D).
  { destruct (todo_count st >? 0); [|done]. unfold set_due_date.
    destruct (getstr local_buffer line) as [buf|]; [|done].
    cbn [mbind option_bind]. destruct (is_nul _); [apply update_filters|].
    destruct (sscanf_d_d_d _) as [|y [|m [|d [|x rest]]]]; try done.
    apply update_filters. }
  destruct (ch =? key_c); [|done].
  destruct (todo_count st >? 0); [|done]. unfold set_category.
  destruct (getstr local_buffer line) as [buf|]; [|done].
  cbn [mbind option_bind]. apply update_filters.
Qed.

End StoreAndFilter.

Lemma store_keys_ignore_filter_witness :
  dispatch mktime_utc key_d [] (with_filters_of errands_only two_todos)
  = with_filters_of errands_only <$> dispatch mktime_utc key_d [] two_todos.
Proof.
  apply (store_keys_ignore_filter mktime_utc errands_only key_d [] two_todos).
  vm_compute. reflexivity.
Defined.

(** ** The calls of the drawing pass *)

Section Drawing.







End Drawing.



(** ** What the filter shows *)

Section Views.

Lemma matches_unfiltered st t : unfiltered st -> matches st t = true.
Proof.
  intros (Hc & Hd & Hs). apply matches_iff.
  unfold status_ok, category_ok, search_ok. by repeat split.
Qed.

Lemma visible_from_all st n k :
  unfiltered st -> 0 <= k ->
  k + Z.of_nat n <= Z.of_nat (length (todos st)) ->
  k + Z.of_nat n <= MAX_TODOS ->
  visible_from st n k = seqZ k (Z.of_nat n).
Proof.
  intros Hun. revert k. induction n as [|n IH]; intros k Hk Hlen Hmax.
  - by rewrite seqZ_nil.
  - cbn [visible_from]. rewrite seqZ_cons by lia.
    destruct (lookup_lt_is_Some_2 (todos st) (Z.to_nat k)) as [t Ht]; [lia|].
    assert (Hat : todos_at st k = Some t)
      by (apply todos_at_Some; split; [lia|done]).
    unfold todo_matches_filter. rewrite Hat. cbn [fmap option_fmap option_map].
    rewrite matches_unfiltered by done.
    rewrite IH by lia. do 2 f_equal; lia.
Qed.

(** X12. With no criterion switched on, as at start-up and after 'r',
    every record of the store is shown, in store order. *)
Theorem unfiltered_shows_all st :
  length (todos st) = Z.to_nat MAX_TODOS ->
  0 <= todo_count st <= MAX_TODOS ->
  visible (reset_filters st) = seqZ 0 (todo_count st)
  /\ (unfiltered st -> visible st = seqZ 0 (todo_count st)).
Proof.
  intros Hlen Hcnt.
  assert (Hall : forall st1, length (todos st1) = Z.to_nat MAX_TODOS ->
            0 <= todo_count st1 <= MAX_TODOS -> unfiltered st1 ->
            visible st1 = seqZ 0 (todo_count st1)).
  { intros st1 Hl Hc Hun. unfold visible.
    rewrite visible_from_all by (done || unfold MAX_TODOS in *; lia).
    f_equal. lia. }
  split; [|by apply Hall].
  apply (Hall (reset_filters st)); [done|done|].
  unfold unfiltered, reset_filters. cbn. by rewrite !cstr_cleared.
Qed.

(** X13. When every record of the store has a flag of 0 or 1, the
    'pending' view and the 'done' view split the 'all' view in two: under
    the same category filter and search term, a record is shown under
    'all' exactly when it is shown under one of the two, and never under
    both. *)
Theorem pending_done_partition st :
  (forall i t, 0 <= i < todo_count st -> todos_at st i = Some t -> flag_ok t) ->
  forall i,
    (i ∈ visible (with_filter_done (-1) st)
     <-> i ∈ visible (with_filter_done 0 st)
         \/ i ∈ visible (with_filter_done 1 st))
    /\ ~ (i ∈ visible (with_filter_done 0 st)
          /\ i ∈ visible (with_filter_done 1 st)).
Proof.
  intros Hflags i. rewrite !elem_of_visible.
  cbn [todo_count with_filter_done]. unfold todo_matches_filter.
  change (todos_at (with_filter_done (-1) st) i) with (todos_at st i).
  change (todos_at (with_filter_done 0 st) i) with (todos_at st i).
  change (todos_at (with_filter_done 1 st) i) with (todos_at st i).
  destruct (todos_at st i) as [t|] eqn:Hat;
    cbn [fmap option_fmap option_map];
    [|split; [split; [intros [_ ?]|intros [[_ ?]|[_ ?]]]|intros [[_ ?] _]];
      done].
  assert (Hm : forall v, Some (matches (with_filter_done v st) t) = Some true
                <-> (v <> -1 -> done t = v)
                    /\ category_ok st t /\ search_ok st t).
  { intros v. split.
    - intros [= Hm]. by apply matches_iff in Hm.
    - intros Hm. f_equal. by apply matches_iff. }
  rewrite !Hm. split; [split|].
  - intros (Hi & _ & Hc & Hs). destruct (Hflags i t Hi Hat) as [Hd|Hd].
    + left. split; [done|]. split; [by intros _|]. by split.
    + right. split; [done|]. split; [by intros _|]. by split.
  - intros [(Hi & _ & Hc & Hs)|(Hi & _ & Hc & Hs)];
      (split; [done|]; split; [by intros ?|]; by split).
  - intros [(_ & Hd0 & _) (_ & Hd1 & _)].
    specialize (Hd0 ltac:(lia)). specialize (Hd1 ltac:(lia)). lia.
Qed.

(** X14. A record is found under its own category in any letter case:
    after [set_category] with one spelling and [filter_by_category] with
    another that differs in case only, with the other two criteria off,
    the record is shown. *)
Theorem category_filter_finds idx line1 line2 st t :
  0 <= idx < todo_count st -> todos_at st idx = Some t -> wf_Todo t ->
  (length line1 < MAX_LENGTH)%nat ->
  (length line2 < length (filter_category st))%nat ->
  ci_equal (cstr line1) (cstr line2) ->
  filter_done st = -1 -> cstr (search_term st) = [] ->
  exists st1 st2,
    set_category idx line1 st = Some st1
    /\ filter_by_category line2 st1 = Some st2
    /\ idx ∈ visible st2.
Proof.
  intros Hidx Hat [(_ & Hcl & _) (_ & Hcn)] H1 H2 Heq Hfd Hst.
  pose proof (proj1 (todos_at_Some _ _ _) Hat) as [Hin Hl].
  pose proof (lookup_lt_Some _ _ _ Hl) as Hlt.
  unfold set_category.
  rewrite getstr_fits by (by rewrite length_local_buffer).
  cbn [mbind option_bind].
  set (buf := line1 ++ NUL :: drop (S (length line1)) local_buffer).
  assert (Hbuf : cstr buf = cstr line1) by apply cstr_before_NUL.
  rewrite (update_record st idx t) by done.
  eexists. eexists. split; [reflexivity|].
  unfold filter_by_category. cbn [filter_category with_todos].
  rewrite getstr_fits by done. cbn [mbind option_bind].
  split; [reflexivity|].
  apply elem_of_visible. split; [done|].
  unfold todo_matches_filter.
  match goal with
  | |- context [todos_at (with_selected 0 (with_filter_category ?b ?s)) idx] =>
      change (todos_at (with_selected 0 (with_filter_category b s)) idx)
        with (todos_at s idx)
  end.
  rewrite todos_at_insert_eq by done.
  cbn [fmap option_fmap option_map]. f_equal. apply matches_iff.
  unfold status_ok, category_ok, search_ok.
  cbn [filter_done filter_category search_term with_selected
       with_filter_category with_todos category text set_category_buf].
  split; [done|]. split; [|done]. intros _.
  destruct (strncpy_buffer (category t) buf Hcl Hcn) as (_ & _ & ->).
  rewrite Hbuf, cstr_before_NUL.
  rewrite take_ge; [done|]. pose proof (length_cstr line1).
  unfold MAX_LENGTH in *. lia.
Qed.

(** X15. A record that has just been added is found by a search for its
    own text: after an accepted Add and a search for the same input, the
    new record is shown, provided no category filter is on (the new
    record has no category) and the completion filter does not ask for
    done records (the new record is pending). *)
Theorem added_record_is_found line st :
  wf_State st -> (length line < MAX_LENGTH)%nat ->
  cstr line <> [] -> todo_count st < MAX_TODOS ->
  cstr (filter_category st) = [] ->
  filter_done st = -1 \/ filter_done st = 0 ->
  exists st1 st2,
    add_todo line st = Some st1
    /\ search_todos line st1 = Some st2
    /\ todo_count st ∈ visible st2.
Proof.
  intros [Hsh Hall] Hline Hne Hroom Hfc Hfd.
  pose proof Hsh as (Hlen & Hcnt & Hint & _ & _ & Hst).
  destruct (todos_at_valid st (todo_count st)) as [t Hat]; [done|lia|].
  assert (Ht : wf_Todo t).
  { apply (proj1 (todos_at_Some _ _ _)) in Hat as [_ Hl].
    by eapply Forall_lookup_1. }
  destruct Ht as [(Htl & _) (Htn & _)].
  rewrite (add_todo_accepts line st t) by (done || lia).
  rewrite !sint_id by (rewrite ?sint_id; int_range).
  set (buf := line ++ NUL :: drop (S (length line)) local_buffer).
  eexists. eexists. split; [reflexivity|].
  unfold search_todos.
  cbn [search_term with_selected with_todo_count with_todos].
  rewrite getstr_fits by (by rewrite Hst). cbn [mbind option_bind].
  split; [reflexivity|].
  apply elem_of_visible.
  cbn [todo_count with_selected with_search_term with_todo_count with_todos].
  split; [lia|].
  unfold todo_matches_filter, todos_at.
  cbn [todos with_selected with_search_term with_todo_count with_todos].
  assert (Hin : in_array (todo_count st) = true)
    by (unfold in_array, MAX_TODOS in *;
        apply andb_true_iff; split; [apply Z.leb_le|apply Z.ltb_lt]; lia).
  rewrite Hin, list_lookup_insert_eq
    by (rewrite Hlen; unfold MAX_TODOS in *; lia).
  cbn [fmap option_fmap option_map]. f_equal. apply matches_iff.
  unfold status_ok, category_ok, search_ok.
  cbn [filter_done filter_category search_term with_selected with_search_term
       with_todo_count with_todos done category text
       set_done set_due set_category_buf set_text].
  split; [intros ?; lia|]. split; [by intros ?|]. intros _. left.
  destruct (strncpy_buffer (text t) buf Htl Htn) as (_ & _ & ->).
  unfold buf. rewrite !cstr_before_NUL.
  rewrite take_ge by (pose proof (length_cstr line); unfold MAX_LENGTH in *; lia).
  exists [], []. cbn [app]. by rewrite app_nil_r.
Qed.

End Views.

Lemma unfiltered_shows_all_witness :
  visible (reset_filters errands_only) = seqZ 0 (todo_count errands_only)
  /\ (unfiltered errands_only ->
      visible errands_only = seqZ 0 (todo_count errands_only)).
Proof.
  apply (unfiltered_shows_all errands_only).
  - vm_compute. reflexivity.
  - vm_compute. split; congruence.
Defined.

Lemma flags_two_todos :
  forall i t, 0 <= i < todo_count two_todos ->
              todos_at two_todos i = Some t -> flag_ok t.
Proof.
  intros i t _ Hat. apply (proj1 (todos_at_Some _ _ _)) in Hat as [_ Hl].
  revert Hl. apply Forall_lookup_1.
  apply (bool_decide_unpack _). vm_compute. exact I.
Defined.

Lemma pending_done_partition_witness :
  (0 ∈ visible (with_filter_done (-1) two_todos)
   <-> 0 ∈ visible (with_filter_done 0 two_todos)
       \/ 0 ∈ visible (with_filter_done 1 two_todos))
  /\ ~ (0 ∈ visible (with_filter_done 0 two_todos)
        /\ 0 ∈ visible (with_filter_done 1 two_todos)).
Proof. apply (pending_done_partition two_todos flags_two_todos 0). Defined.

Lemma category_filter_finds_witness :
  exists st1 st2,
    set_category 1 (bytes "Work") two_todos = Some st1
    /\ filter_by_category (bytes "WORK") st1 = Some st2
    /\ 1 ∈ visible st2.
Proof.
  apply (category_filter_finds 1 (bytes "Work") (bytes "WORK") two_todos
           (default zero_Todo (todos_at two_todos 1))).
  - vm_compute. split; congruence.
  - vm_compute. reflexivity.
  - apply (bool_decide_unpack _). vm_compute. exact I.
  - vm_compute. lia.
  - vm_compute. lia.
  - vm_compute. reflexivity.
  - vm_compute. reflexivity.
  - vm_compute. reflexivity.
Defined.

Lemma added_record_is_found_witness :
  exists st1 st2,
    add_todo (bytes "Feed cat") two_todos = Some st1
    /\ search_todos (bytes "Feed cat") st1 = Some st2
    /\ todo_count two_todos ∈ visible st2.
Proof.
  apply (added_record_is_found (bytes "Feed cat") two_todos).
  - exact wf_two_todos.
  - vm_compute. lia.
  - vm_compute. congruence.
  - vm_compute. reflexivity.
  - vm_compute. reflexivity.
  - left. vm_compute. reflexivity.
Defined.

(** ** Sessions and the data file *)

Section DataFile.

Variable mktime : tm -> Z.

Lemma swrap_mod w z :
  0 < w -> CInt.swrap w z mod 2 ^ w = z mod 2 ^ w.
Proof.
  intros Hw. unfold CInt.swrap.
  rewrite Zminus_mod_idemp_l. f_equal. lia.
Qed.

(** Writing out the integer read from [n] bytes gives these bytes. *)
Lemma to_of_bytes bs :
  (0 < length bs)%nat -> CInt.to_bytes (length bs) (CInt.of_bytes bs) = bs.
Proof.
  intros Hn. unfold CInt.to_bytes, CInt.of_bytes.
  rewrite le_split_mod.
  replace (Z.of_nat (length bs) * 8) with (8 * Z.of_nat (length bs)) by lia.
  rewrite swrap_mod by lia.
  replace (8 * Z.of_nat (length bs)) with (Z.of_nat (length bs) * 8) by lia.
  rewrite <- le_split_mod. apply split_le_combine.
Qed.

Lemma of_bytes_range bs :
  (0 < length bs)%nat ->
  - 2 ^ (8 * Z.of_nat (length bs) - 1) <= CInt.of_bytes bs
  < 2 ^ (8 * Z.of_nat (length bs) - 1).
Proof.
  intros Hn. unfold CInt.of_bytes, CInt.swrap.
  set (w := 8 * Z.of_nat (length bs)).
  assert (Hw : 2 ^ w = 2 * 2 ^ (w - 1)).
  { rewrite <- Z.pow_succ_r by lia. f_equal. lia. }
  pose proof (Z.mod_pos_bound (le_combine bs + 2 ^ (w - 1)) (2 ^ w)
                ltac:(apply Z.pow_pos_nonneg; lia)).
  lia.
Qed.

(** The records read from 272 bytes have the sizes of their type, and
    their bytes are the bytes read. *)
Lemma decode_Todo_layout bs :
  length bs = Z.to_nat sizeof_Todo -> has_layout (decode_Todo bs).
Proof.
  intros Hlen. unfold sizeof_Todo in Hlen.
  change (Z.to_nat 272) with 272%nat in Hlen.
  unfold has_layout, decode_Todo, MAX_LENGTH.
  cbn [text category due_date done pad].
  rewrite !length_take, !length_drop, Hlen.
  split; [done|]. split; [done|]. split; [|split; [|done]].
  - pose proof (of_bytes_range (take 8 (drop 256 bs))) as H.
    rewrite length_take, length_drop, Hlen in H.
    specialize (H ltac:(lia)).
    unfold CInt.is_long, CInt.LONG_MIN, CInt.LONG_MAX.
    change (8 * Z.of_nat (8 `min` (272 - 256)) - 1) with 63 in H. lia.
  - pose proof (of_bytes_range (take 4 (drop 264 bs))) as H.
    rewrite length_take, length_drop, Hlen in H.
    specialize (H ltac:(lia)).
    unfold CInt.is_int, CInt.INT_MIN, CInt.INT_MAX.
    change (8 * Z.of_nat (4 `min` (272 - 264)) - 1) with 31 in H. lia.
Qed.

Lemma encode_decode_Todo bs :
  length bs = Z.to_nat sizeof_Todo -> encode_Todo (decode_Todo bs) = bs.
Proof.
  intros Hlen. unfold sizeof_Todo in Hlen.
  change (Z.to_nat 272) with 272%nat in Hlen.
  unfold encode_Todo, decode_Todo, MAX_LENGTH.
  cbn [text category due_date done pad].
  pose proof (to_of_bytes (take 8 (drop 256 bs))) as H8.
  rewrite length_take, length_drop, Hlen in H8.
  change (8 `min` (272 - 256))%nat with 8%nat in H8.
  pose proof (to_of_bytes (take 4 (drop 264 bs))) as H4.
  rewrite length_take, length_drop, Hlen in H4.
  change (4 `min` (272 - 264))%nat with 4%nat in H4.
  rewrite H8, H4 by lia.
  rewrite (take_ge (drop 268 bs)) by (rewrite length_drop; lia).
  transitivity (take 128 bs ++ drop 128 bs); [|apply take_drop]. f_equal.
  transitivity (take 128 (drop 128 bs) ++ drop 128 (drop 128 bs));
    [|apply take_drop]. f_equal.
  rewrite drop_drop. change (128 + 128)%nat with 256%nat.
  transitivity (take 8 (drop 256 bs) ++ drop 8 (drop 256 bs));
    [|apply take_drop]. f_equal.
  rewrite drop_drop. change (256 + 8)%nat with 264%nat.
  transitivity (take 4 (drop 264 bs) ++ drop 4 (drop 264 bs));
    [|apply take_drop]. f_equal.
  by rewrite drop_drop.
Qed.

Lemma todos_of_bytes_spec k bs :
  length bs = (Z.to_nat sizeof_Todo * k)%nat ->
  length (todos_of_bytes k bs) = k
  /\ Forall has_layout (todos_of_bytes k bs)
  /\ todos_bytes (todos_of_bytes k bs) = bs.
Proof.
  revert bs. induction k as [|k IH]; intros bs Hlen.
  - destruct bs; [|done]. by repeat split.
  - cbn [todos_of_bytes].
    assert (Ht : length (take (Z.to_nat sizeof_Todo) bs) = Z.to_nat sizeof_Todo)
      by (rewrite length_take; lia).
    assert (Hd : length (drop (Z.to_nat sizeof_Todo) bs)
                 = (Z.to_nat sizeof_Todo * k)%nat)
      by (rewrite length_drop; lia).
    destruct (IH _ Hd) as (Hl & Hall & Hb).
    split; [cbn; by rewrite Hl|]. split.
    + constructor; [by apply decode_Todo_layout|done].
    + change (todos_bytes (?t :: ?l)) with (encode_Todo t ++ todos_bytes l).
      by rewrite encode_decode_Todo, Hb, take_drop.
Qed.

(** Loading a complete file into the initial array. *)
Lemma load_complete_file data :
  complete_file data ->
  let n := CInt.of_bytes (take 4 data) in
  let st := with_todos
              (todos_of_bytes (Z.to_nat MAX_TODOS)
                 (drop 4 data
                  ++ drop (Z.to_nat (sizeof_Todo * n))
                       (todos_bytes (todos initial_state))))
              (with_todo_count n initial_state) in
  load_todos (Some data) initial_state = Some st
  /\ length (drop 4 data
             ++ drop (Z.to_nat (sizeof_Todo * n))
                  (todos_bytes (todos initial_state)))
     = (Z.to_nat sizeof_Todo * Z.to_nat MAX_TODOS)%nat.
Proof.
  intros (H4 & Hn & Hlen) n st.
  assert (Hinit : length (todos_bytes (todos initial_state))
                  = (Z.to_nat sizeof_Todo * Z.to_nat MAX_TODOS)%nat).
  { rewrite length_todos_bytes by apply layout_initial_state. done. }
  assert (Hrest : length (drop 4 data) = Z.to_nat (sizeof_Todo * n)).
  { rewrite length_drop. unfold n, sizeof_Todo in *. lia. }
  split.
  - rewrite <- (take_drop 4 data) at 1.
    rewrite load_todos_header;
      [|done|apply layout_initial_state|rewrite length_take; lia|done].
    fold n. unfold st. do 3 f_equal.
    rewrite Z.min_l by (rewrite Hrest; unfold sizeof_Todo, n in *; lia).
    by rewrite take_ge by (rewrite Hrest; lia).
  - rewrite length_app, Hrest, length_drop, Hinit.
    unfold sizeof_Todo, MAX_TODOS, n in *. lia.
Qed.

(** X16. A session that ends at once leaves a complete data file as it
    found it, byte for byte: [main] loads the file, and what it saves on
    'q' is the same sequence of bytes. *)
Theorem quit_rewrites_same_file data line keys :
  complete_file data ->
  exists st,
    main mktime (Some data) true ((key_q, line) :: keys)
    = Some (st, Some data).
Proof.
  intros Hfile. pose proof Hfile as (H4 & Hn & Hlen).
  destruct (load_complete_file data Hfile) as [Hload Hmem].
  set (n := CInt.of_bytes (take 4 data)) in *.
  set (mem := drop 4 data ++ _) in *.
  destruct (todos_of_bytes_spec (Z.to_nat MAX_TODOS) mem Hmem)
    as (Hl & Hall & Hb).
  unfold main. rewrite Hload. cbn [mbind option_bind loop].
  change (key_q =? key_q) with true. cbn [mbind option_bind].
  rewrite save_todos_file by done.
  cbn [todo_count todos with_todos with_todo_count mbind option_bind].
  eexists. do 3 f_equal.
  transitivity (take 4 data ++ drop 4 data); [|apply take_drop]. f_equal.
  - pose proof (to_of_bytes (take 4 data)) as H.
    rewrite length_take, Nat.min_l in H by lia. apply H. lia.
  - rewrite <- take_todos_bytes
      by (done || rewrite Hl; unfold MAX_TODOS in *; lia).
    rewrite Hb. unfold mem. apply take_app_length'.
    rewrite length_drop. unfold sizeof_Todo, n in *. lia.
Qed.

(** Saving a store of the right layout and loading the file at the next
    start gives the count and the records of the store. *)
Lemma save_then_load st old :
  length (todos st) = Z.to_nat MAX_TODOS -> Forall has_layout (todos st) ->
  0 <= todo_count st <= MAX_TODOS ->
  exists data st',
    save_todos true st old = Some (Some data)
    /\ load_todos (Some data) initial_state = Some st'
    /\ todo_count st' = todo_count st
    /\ (forall i, 0 <= i < todo_count st -> todos_at st' i = todos_at st i).
Proof.
  intros Hlen Hall Hcnt.
  rewrite (save_todos_file st old) by done.
  set (n := Z.to_nat (todo_count st)).
  assert (Hn : (n <= length (todos st))%nat)
    by (unfold n, MAX_TODOS in *; lia).
  assert (Hsaved : length (todos_bytes (take n (todos st)))
                   = (Z.to_nat sizeof_Todo * n)%nat).
  { rewrite length_todos_bytes by (by apply Forall_take).
    by rewrite length_take, Nat.min_l. }
  assert (Hhdr : CInt.of_bytes (CInt.to_bytes 4 (todo_count st))
                 = todo_count st).
  { apply of_to_bytes_int. int_range. }
  eexists. eexists. split; [reflexivity|].
  rewrite load_todos_header;
    [|done|apply layout_initial_state|apply length_to_bytes|by rewrite Hhdr].
  rewrite Hhdr.
  replace (Z.to_nat (Z.min (sizeof_Todo * todo_count st)
             (Z.of_nat (length (todos_bytes (take n (todos st)))))))
    with (Z.to_nat sizeof_Todo * n)%nat
    by (rewrite Hsaved; unfold n, sizeof_Todo; lia).
  rewrite take_ge by lia.
  assert (Hn0 : (n <= length (todos initial_state))%nat).
  { change (length (todos initial_state)) with 100%nat.
    unfold n, MAX_TODOS in *. lia. }
  rewrite drop_todos_bytes by (apply layout_initial_state || done).
  rewrite <- todos_bytes_app.
  assert (Hlen' : length (take n (todos st) ++ drop n (todos initial_state))
                  = length (todos initial_state)).
  { rewrite length_app, length_take, length_drop. lia. }
  rewrite <- Hlen', todos_of_bytes_all
    by (apply Forall_app; split;
        [by apply Forall_take|apply Forall_drop, layout_initial_state]).
  split; [reflexivity|]. split; [done|].
  intros i Hi. unfold todos_at. cbn [todos with_todos].
  destruct (in_array i); [|done].
  rewrite lookup_app_l by (rewrite length_take; unfold n; lia).
  apply lookup_take_lt. unfold n. lia.
Qed.

(** X17. What a first session leaves is there at the next start: begun
    without a data file, [main] runs through any keys (up to the first
    'q'), saves, and loading the saved file at start-up gives the count
    and, below it, the very records of the state the session ended in. *)
Theorem first_session_persists keys :
  Forall (fun k => (length k.2 < MAX_LENGTH)%nat) keys ->
  exists st data st',
    main mktime None true keys = Some (st, Some data)
    /\ load_todos (Some data) initial_state = Some st'
    /\ todo_count st' = todo_count st
    /\ (forall i, 0 <= i < todo_count st -> todos_at st' i = todos_at st i).
Proof.
  intros Hkeys. destruct initial_state_inv as [[Hsh Hall] Hsel].
  destruct (loop_inv mktime keys initial_state Hkeys Hsh Hsel)
    as (st & Hrun & (Hlen & Hcnt & _) & _ & Hwf).
  assert (Hlay : Forall has_layout (todos st)).
  { eapply Forall_impl; [by apply Hwf|]. by intros t [? _]. }
  destruct (save_then_load st None Hlen Hlay Hcnt)
    as (data & st' & Hsave & Hload & Hc & Hrec).
  exists st, data, st'. split; [|done].
  unfold main. cbn [load_todos mbind option_bind].
  rewrite Hrun. cbn [mbind option_bind]. by rewrite Hsave.
Qed.

(** X18. [load_todos] does not hold the announced count against the
    capacity: a file whose header announces more than 100 records and that
    carries more bytes of records than the array has makes [fread] write
    behind the array. *)
Theorem load_todos_overruns st header rest :
  length (todos st) = Z.to_nat MAX_TODOS -> Forall has_layout (todos st) ->
  length header = 4%nat ->
  MAX_TODOS < CInt.of_bytes header ->
  sizeof_Todo * MAX_TODOS < Z.of_nat (length rest) ->
  load_todos (Some (header ++ rest)) st = None.
Proof.
  intros Hlen Hall Hh Hn Hrest. unfold load_todos, fread.
  rewrite request_small by lia.
  rewrite length_app, Hh, length_to_bytes.
  replace (Z.to_nat (Z.min (4 * 1) (Z.of_nat (4 + length rest)))) with 4%nat
    by lia.
  cbn [Nat.leb mbind option_bind].
  rewrite take_app_length', drop_app_length' by done.
  rewrite drop_ge by (by rewrite length_to_bytes).
  rewrite app_nil_r. cbn [todo_count with_todo_count todos].
  pose proof (of_bytes_range header ltac:(lia)) as Hr.
  rewrite Hh in Hr. change (8 * Z.of_nat 4 - 1) with 31 in Hr.
  rewrite request_small by (unfold sizeof_Todo, MAX_TODOS in *; lia).
  rewrite length_todos_bytes, Hlen by done.
  destruct (Nat.leb_spec
    (Z.to_nat (Z.min (sizeof_Todo * CInt.of_bytes header)
                 (Z.of_nat (length rest))))
    (Z.to_nat sizeof_Todo * Z.to_nat MAX_TODOS)) as [Hle|]; [|done].
  unfold sizeof_Todo, MAX_TODOS in *. lia.
Qed.

End DataFile.

Lemma quit_rewrites_same_file_witness :
  exists st,
    main mktime_utc (Some saved_two_todos) true [(key_q, [])]
    = Some (st, Some saved_two_todos).
Proof.
  apply (quit_rewrites_same_file mktime_utc saved_two_todos [] []).
  apply (bool_decide_unpack _). vm_compute. exact I.
Defined.

Lemma first_session_persists_witness :
  exists st data st',
    main mktime_utc None true sample_keys = Some (st, Some data)
    /\ load_todos (Some data) initial_state = Some st'
    /\ todo_count st' = todo_count st
    /\ (forall i, 0 <= i < todo_count st -> todos_at st' i = todos_at st i).
Proof.
  apply (first_session_persists mktime_utc sample_keys).
  exact sample_keys_short.
Defined.

Lemma load_todos_overruns_witness :
  load_todos
    (Some ([Byte.x65; Byte.x00; Byte.x00; Byte.x00] ++ oversized_file))
    initial_state
  = None.
Proof.
  apply (load_todos_overruns initial_state
           [Byte.x65; Byte.x00; Byte.x00; Byte.x00] oversized_file).
  - vm_compute. reflexivity.
  - exact layout_initial_state.
  - vm_compute. reflexivity.
  - vm_compute. reflexivity.
  - unfold oversized_file. rewrite length_replicate. vm_compute. reflexivity.
Defined.

(** ** Repeated keys *)

Section Repeats.

Variable mktime : tm -> Z.

Lemma delete_key_count line st st1 :
  shape st -> sel_inv st ->
  dispatch mktime key_d line st = Some st1 ->
  todo_count st1 = Z.max 0 (todo_count st - 1).
Proof.
  intros (Hlen & Hcnt & Hint & _) Hsel.
  change (dispatch mktime key_d line st)
    with (if todo_count st >? 0 then delete_todo (selected st) st else Some st).
  destruct (Z.gtb_spec (todo_count st) 0) as [Hpos|]; [|intros [= <-]; lia].
  specialize (Hsel Hpos).
  destruct (delete_todo_runs (selected st) st) as (l' & Hrun & _);
    [lia|lia|done|].
  rewrite Hrun. cbn zeta. intros [= <-].
  destruct (_ && _); cbn; lia.
Qed.

Lemma add_key_count line st st1 :
  shape st -> (length line < MAX_LENGTH)%nat -> cstr line <> [] ->
  dispatch mktime key_a line st = Some st1 ->
  todo_count st1 = Z.min MAX_TODOS (todo_count st + 1).
Proof.
  intros (Hlen & Hcnt & Hint & _) Hline Hne.
  change (dispatch mktime key_a line st) with (add_todo line st).
  destruct (decide (todo_count st < MAX_TODOS)) as [Hroom|Hfull].
  - destruct (todos_at_valid st (todo_count st)) as [t Hat]; [done|lia|].
    rewrite (add_todo_accepts line st t) by (done || lia).
    rewrite !sint_id by (rewrite ?sint_id; int_range).
    intros [= <-]. cbn. lia.
  - rewrite add_todo_rejects by first [done | right; lia].
    intros [= <-]. lia.
Qed.

(** X19. Pressing 'd' [k] times removes [k] records, or all of them if
    there are fewer: the count goes down by one per key until it is 0,
    and further presses do nothing. *)
Theorem delete_repeatedly k st :
  shape st -> sel_inv st ->
  exists st',
    loop mktime (replicate k (key_d, [])) st = Some st'
    /\ todo_count st' = Z.max 0 (todo_count st - Z.of_nat k).
Proof.
  revert st. induction k as [|k IH]; intros st Hsh Hsel.
  - exists st. split; [done|]. destruct Hsh as (_ & Hcnt & _). lia.
  - cbn [replicate loop]. change (key_d =? key_q) with false.
    destruct (dispatch_inv mktime key_d [] st Hsh Hsel)
      as (st1 & Hrun & Hsh1 & Hsel1 & _);
      [rewrite length_nil; unfold MAX_LENGTH; lia|].
    pose proof (delete_key_count [] st st1 Hsh Hsel Hrun) as Hc.
    rewrite Hrun. cbn [mbind option_bind].
    destruct (IH st1 Hsh1 Hsel1) as (st' & Hloop & Hc').
    exists st'. split; [done|]. lia.
Qed.

(** X20. The store takes 100 records and no more: [k] Adds with a
    non-empty input raise the count by [k] up to the capacity, and every
    further Add is dropped. *)
Theorem add_repeatedly k line st :
  shape st -> sel_inv st ->
  (length line < MAX_LENGTH)%nat -> cstr line <> [] ->
  exists st',
    loop mktime (replicate k (key_a, line)) st = Some st'
    /\ todo_count st' = Z.min MAX_TODOS (todo_count st + Z.of_nat k).
Proof.
  intros Hsh Hsel Hline Hne. revert st Hsh Hsel.
  induction k as [|k IH]; intros st Hsh Hsel.
  - exists st. split; [done|]. destruct Hsh as (_ & Hcnt & _). lia.
  - cbn [replicate loop]. change (key_a =? key_q) with false.
    destruct (dispatch_inv mktime key_a line st Hsh Hsel Hline)
      as (st1 & Hrun & Hsh1 & Hsel1 & _).
    pose proof (add_key_count line st st1 Hsh Hline Hne Hrun) as Hc.
    rewrite Hrun. cbn [mbind option_bind].
    destruct (IH st1 Hsh1 Hsel1) as (st' & Hloop & Hc').
    exists st'. split; [done|]. destruct Hsh as (_ & Hcnt & _). lia.
Qed.

(** X21. Under the 'pending' or the 'done' filter, toggling the selected
    record while it is shown takes it out of the view: the record changes
    sides, stays selected, and is no longer drawn. *)
Theorem toggle_hides_selected line st :
  shape st -> sel_inv st ->
  filter_done st = 0 \/ filter_done st = 1 ->
  selected st ∈ visible st ->
  exists st',
    dispatch mktime key_space line st = Some st'
    /\ selected st' = selected st
    /\ ~ (selected st' ∈ visible st')
    /\ selected st' ∈ visible (with_filter_done (1 - filter_done st) st').
Proof.
  intros Hsh Hsel Hfd Hvis.
  apply elem_of_visible in Hvis as [Hi Hm].
  unfold todo_matches_filter in Hm.
  destruct (todos_at st (selected st)) as [t|] eqn:Hat; [|done].
  injection Hm as Hm. apply matches_iff in Hm as (Hs & Hc & Hq).
  assert (Hdone : done t = filter_done st) by (apply Hs; lia).
  change (dispatch mktime key_space line st)
    with (if todo_count st >? 0 then toggle_todo (selected st) st else Some st).
  destruct (Z.gtb_spec (todo_count st) 0); [|lia].
  unfold toggle_todo. rewrite (update_record st _ t) by done.
  set (t' := set_done (if done t =? 0 then 1 else 0) t).
  assert (Hd' : done t' = 1 - filter_done st).
  { unfold t'. cbn [done set_done]. rewrite Hdone.
    destruct Hfd as [-> | ->]; done. }
  set (st1 := with_todos (<[Z.to_nat (selected st) := t']> (todos st)) st).
  pose proof (proj1 (todos_at_Some _ _ _) Hat) as [Hin Hl].
  pose proof (lookup_lt_Some _ _ _ Hl) as Hlt.
  assert (Hat1 : todos_at st1 (selected st) = Some t')
    by (by apply todos_at_insert_eq).
  exists st1. split; [reflexivity|]. split; [done|].
  change (selected st1) with (selected st). split.
  - rewrite elem_of_visible. intros [_ Hm']. unfold todo_matches_filter in Hm'.
    rewrite Hat1 in Hm'. injection Hm' as Hm'.
    apply matches_iff in Hm' as (Hs' & _).
    unfold status_ok in Hs'. change (filter_done st1) with (filter_done st) in Hs'.
    lia.
  - rewrite elem_of_visible. split; [done|]. unfold todo_matches_filter.
    change (todos_at (with_filter_done (1 - filter_done st) st1) (selected st))
      with (todos_at st1 (selected st)).
    rewrite Hat1. cbn [fmap option_fmap option_map]. f_equal.
    apply matches_iff. split; [|split].
    + intros _. done.
    + apply Hc.
    + apply Hq.
Qed.

End Repeats.

Lemma delete_repeatedly_witness :
  exists st',
    loop mktime_utc (replicate 3 (key_d, [])) two_todos = Some st'
    /\ todo_count st' = Z.max 0 (todo_count two_todos - Z.of_nat 3).
Proof.
  apply (delete_repeatedly mktime_utc 3 two_todos).
  - exact shape_two_todos.
  - exact sel_inv_two_todos.
Defined.

Lemma add_repeatedly_witness :
  exists st',
    loop mktime_utc (replicate 3 (key_a, bytes "Feed cat")) two_todos = Some st'
    /\ todo_count st' = Z.min MAX_TODOS (todo_count two_todos + Z.of_nat 3).
Proof.
  apply (add_repeatedly mktime_utc 3 (bytes "Feed cat") two_todos).
  - exact shape_two_todos.
  - exact sel_inv_two_todos.
  - vm_compute. lia.
  - vm_compute. congruence.
Defined.

Lemma toggle_hides_selected_witness :
  exists st',
    dispatch mktime_utc key_space [] pending_view = Some st'
    /\ selected st' = selected pending_view
    /\ ~ (selected st' ∈ visible st')
    /\ selected st' ∈ visible (with_filter_done (1 - filter_done pending_view) st').
Proof.
  apply (toggle_hides_selected mktime_utc [] pending_view).
  - apply (bool_decide_unpack _). vm_compute. exact I.
  - apply (bool_decide_unpack _). vm_compute. exact I.
  - left. reflexivity.
  - apply elem_of_visible. vm_compute. split; [split; congruence|reflexivity].
Defined.
